(** * FISSA: neuropil decontamination of calcium-imaging traces

    A shallow embedding of [fissa/neuropil.py] and [fissa/extraction.py],
    and of the stage-saving operations of [fissa/core.py] as the
    specification describes them, with the properties of the specification
    stated over it.

    Conventions of the embedding.

    - numpy's float64 values are idealised as real numbers ([R]); rounding
      is not modelled, so equalities between traces are equalities of the
      exact values the arithmetic denotes, and nothing is said about
      results agreeing bit for bit. numpy's nan has no counterpart: the
      mean of an empty selection, nan in numpy, is 0 here.
    - A 2-d [numpy.ndarray] is a record holding its shape and its rows.
      The trace matrix [S] handed to [separate] holds one region per row
      ([S[0,:]] is the primary signal); the specification calls these
      region vectors the columns of the trace matrix.
    - Python exceptions are values of [exn]; a computation that may raise
      has type [result A].
    - sklearn, nimfa, scipy and numpy routines the source calls but does
      not define are fields of an interface class, with their documented
      contracts in a second class.
    - Print statements are left out: they do not change what is returned. *)

From Stdlib Require Import Reals Lra Lia ZArith.
From stdpp Require Import base option list gmap strings sorting.

Open Scope R_scope.

(** ** Exceptions and the error monad *)

Inductive exn : Set :=
  | ValueError
  | TypeError
  | IndexError
  | KeyError
  | UnboundLocalError
  | FloatingPointError
  | EOFError.

Inductive result (A : Type) : Type :=
  | Ok (a : A)
  | Raise (e : exn).
Arguments Ok {A} a.
Arguments Raise {A} e.

#[global] Instance result_ret : MRet result := @Ok.
#[global] Instance result_bind : MBind result :=
  λ A B f m, match m with Ok a => f a | Raise e => Raise e end.

Definition is_Ok {A} (r : result A) : Prop := ∃ a, r = Ok a.

(** [for x in xs: body], threading the loop-carried state. *)
Fixpoint for_each {X St : Type} (xs : list X) (body : X → St → result St)
    (s : St) : result St :=
  match xs with
  | [] => Ok s
  | x :: xs' => s' ← body x s; for_each xs' body s'
  end.

(** [range(n)] *)
Definition range (n : nat) : list nat := seq 0 n.

(** ** Decidable comparisons on reals *)

#[global] Instance R_eq_dec : EqDecision R := Req_dec_T.
#[global] Instance Rlt_decision (x y : R) : Decision (x < y) := Rlt_dec x y.
#[global] Instance Rle_decision (x y : R) : Decision (x <= y) := Rle_dec x y.
#[global] Instance R_inhabited : Inhabited R := populate 0.

(** ** Vectors: 1-d arrays *)

Definition np_sum (v : list R) : R := foldr Rplus 0 v.

Definition np_mean (v : list R) : R := np_sum v / INR (length v).

(** [a * v] for a scalar [a] *)
Definition vscale (a : R) (v : list R) : list R := map (Rmult a) v.

(** [v + c] for a scalar [c] *)
Definition vshift (c : R) (v : list R) : list R := map (λ x, x + c) v.

(** Elementwise [u - v] on vectors of one length. *)
Definition vsub (u v : list R) : list R := zip_with Rminus u v.

(** [v / d]; a zero divisor is made observable as [FloatingPointError]
    (what numpy raises under [np.errstate(divide='raise')]; by default it
    only warns and stores inf or nan). *)
Definition vdiv (v : list R) (d : R) : result (list R) :=
  if decide (d = 0) then Raise FloatingPointError
  else Ok (map (λ x, x / d) v).

(** ** Two-dimensional arrays *)

Record ndarray (A : Type) : Type := mk_ndarray {
  nd_rows : nat;
  nd_cols : nat;
  nd_data : list (list A)
}.
Arguments mk_ndarray {A} _ _ _.
Arguments nd_rows {A} _.
Arguments nd_cols {A} _.
Arguments nd_data {A} _.

Definition np_shape {A} (M : ndarray A) : nat * nat := (nd_rows M, nd_cols M).

(** The data agrees with the recorded shape. *)
Definition nd_wf {A} (M : ndarray A) : Prop :=
  length (nd_data M) = nd_rows M ∧
  Forall (λ r, length r = nd_cols M) (nd_data M).

Definition np_zeros (shape : nat * nat) : ndarray R :=
  mk_ndarray shape.1 shape.2 (replicate shape.1 (replicate shape.2 0)).

(** [M[i, :]] *)
Definition getrow (M : ndarray R) (i : nat) : result (list R) :=
  match nd_data M !! i with
  | Some r => Ok r
  | None => Raise IndexError
  end.

(** The values of column [j], without the bounds check. *)
Definition column (j : nat) (M : ndarray R) : list R :=
  map (λ r, nth j r 0) (nd_data M).

(** [M[:, j]] *)
Definition getcol (M : ndarray R) (j : nat) : result (list R) :=
  if decide (j < nd_cols M)%nat then Ok (column j M) else Raise IndexError.

(** [M[i, j]] *)
Definition getitem (M : ndarray R) (i j : nat) : result R :=
  r ← getrow M i;
  match r !! j with
  | Some x => Ok x
  | None => Raise IndexError
  end.

(** [M[:, j] = v] *)
Definition setcol (M : ndarray R) (j : nat) (v : list R)
    : result (ndarray R) :=
  if decide (j < nd_cols M)%nat then
    if decide (length v = nd_rows M) then
      Ok (mk_ndarray (nd_rows M) (nd_cols M)
            (zip_with (λ r x, <[j:=x]> r) (nd_data M) v))
    else Raise ValueError
  else Raise IndexError.

(** [M[i, :] = v] *)
Definition setrow (M : ndarray R) (i : nat) (v : list R)
    : result (ndarray R) :=
  if decide (i < nd_rows M)%nat then
    if decide (length v = nd_cols M) then
      Ok (mk_ndarray (nd_rows M) (nd_cols M) (<[i:=v]> (nd_data M)))
    else Raise ValueError
  else Raise IndexError.

(** [M[i, j] = x] *)
Definition setitem (M : ndarray R) (i j : nat) (x : R)
    : result (ndarray R) :=
  match nd_data M !! i with
  | Some r =>
      if decide (j < length r)%nat then
        Ok (mk_ndarray (nd_rows M) (nd_cols M)
              (<[i:=<[j:=x]> r]> (nd_data M)))
      else Raise IndexError
  | None => Raise IndexError
  end.

(** [M.T] *)
Definition transpose (M : ndarray R) : ndarray R :=
  mk_ndarray (nd_cols M) (nd_rows M)
    (map (λ j, column j M) (seq 0 (nd_cols M))).

(** [abs(M)] *)
Definition nd_abs (M : ndarray R) : ndarray R :=
  mk_ndarray (nd_rows M) (nd_cols M) (map (map Rabs) (nd_data M)).

(** ** Python values stored in the convergence dictionary *)

Inductive pyval : Set :=
  | PInt (z : Z)
  | PBool (b : bool)
  | PStr (s : string).

(** [range(n)] for a Python int: empty when [n <= 0]. *)
Definition py_range (n : Z) : list Z := map Z.of_nat (seq 0 (Z.to_nat n)).

(** * fissa/neuropil.py *)

Module neuropil.

(** What the source reads from a fitted [sklearn.decomposition.FastICA]:
    the transformed data, [n_iter_] and [mixing_]. *)
Record FastICA : Type := mk_FastICA {
  ica_fit_transform : ndarray R;
  ica_n_iter_ : Z;
  ica_mixing_ : ndarray R
}.

(** What it reads from a fitted [sklearn.decomposition.NMF]. *)
Record NMF : Type := mk_NMF {
  nmf_fit_transform : ndarray R;
  nmf_n_iter_ : Z;
  nmf_components_ : ndarray R
}.

(** What it reads from a nimfa fit: [basis()], [coef()] and
    [summary()['n_iter']]. *)
Record Nmf_fit : Type := mk_Nmf_fit {
  fit_basis : ndarray R;
  fit_coef : ndarray R;
  fit_n_iter : Z
}.

(** The routines of numpy, sklearn, nimfa and scipy that the module calls.
    [world] stands for the state behind [numpy.random] and the entropy
    nimfa's [random_vcol] seeding draws from. *)
Class Libraries : Type := {
  world : Type;
  (** [numpy.random.randint(high)] *)
  rand_randint : Z → world → Z * world;
  (** [PCA(whiten=False).fit(X).explained_variance_ratio_] *)
  PCA_explained_variance_ratio_ : ndarray R → list R;
  (** [FastICA(n_components, whiten=True, max_iter, tol, random_state)]
      fitted on [X] *)
  FastICA_fit : nat → Z → R → Z → ndarray R → FastICA;
  (** [NMF(init='nndsvd', l1_ratio=0.25, alpha=5, max_iter, n_components,
      tol, random_state)] fitted on [X] *)
  NMF_fit : Z → nat → R → Z → ndarray R → NMF;
  (** [nimfa.Nmf(V, max_iter, rank, seed='random_vcol', ...)()] *)
  nimfa_Nmf : ndarray R → Z → nat → world → Nmf_fit * world;
  (** [numpy.argsort] *)
  np_argsort : list R → list nat;
  (** [numpy.corrcoef(x, y)[0, 1]] *)
  np_corrcoef : list R → list R → R;
  (** [scipy.optimize.minimize_scalar(f, bounds, method='bounded').x] *)
  minimize_scalar : (R → R) → R * R → result R
}.

(** The [n_components] argument: a Python int or a float. *)
Inductive n_components_arg : Type :=
  | NInt (k : nat)
  | NFloat (x : R).

(** The loop-carried variables of a retry loop: [random_state], the state
    of [numpy.random], the model fitted by the last attempt (unbound
    before the first), and the seeds handed to the library so far. *)
Record loop_state (F : Type) `{Libraries} : Type := mk_loop_state {
  ls_random_state : Z;
  ls_world : world;
  ls_model : option F;
  ls_seeds : list Z
}.
Arguments mk_loop_state {F _} _ _ _ _.
Arguments ls_random_state {F _} _.
Arguments ls_world {F _} _.
Arguments ls_model {F _} _.
Arguments ls_seeds {F _} _.

(** What the factorisation stage leaves for the rest of [separate]. *)
Record factorised : Type := mk_factorised {
  f_S_sep : ndarray R;
  f_A_sep : ndarray R;
  f_random_state : Z;
  f_n_iter : Z
}.

(** The tuple [separate] returns. *)
Record separated : Type := mk_separated {
  out_S_sep : ndarray R;
  out_S_matched : ndarray R;
  out_A_sep : ndarray R;
  out_convergence : gmap string pyval
}.

Section with_libraries.
Context `{Libraries}.

(** Lines 83-100: the number of components, inferred by PCA when the
    argument lies strictly between 0 and 1. *)
Definition infer_n_components (S : ndarray R) (n_components : n_components_arg)
    : n_components_arg :=
  match n_components with
  | NInt k => NInt k
  | NFloat x =>
      if decide (0 < x ∧ x < 1) then
        NInt (length (filter (λ r, r > x)
                        (PCA_explained_variance_ratio_ (transpose S))))
      else NFloat x
  end.

(** A float that is still a float when the component count is needed
    is rejected ([range] and the libraries want an int). *)
Definition as_int (n_components : n_components_arg) : result nat :=
  match n_components with
  | NInt k => Ok k
  | NFloat _ => Raise TypeError
  end.

(** [for ith_try in range(maxtries)]: fit with the current
    [random_state]; leave the loop when the attempt converged; otherwise
    draw a new [random_state], unless this was the last try. The print
    statements are not modelled. *)
Fixpoint retry_loop {F} (fit : Z → F) (converged : F → bool)
    (maxtries : Z) (tries : list Z) (st : loop_state F) : loop_state F :=
  match tries with
  | [] => st
  | ith_try :: rest =>
      let model := fit (ls_random_state st) in
      let st1 := mk_loop_state (ls_random_state st) (ls_world st)
                   (Some model) (ls_seeds st ++ [ls_random_state st]) in
      if converged model then st1
      else
        retry_loop fit converged maxtries rest
          (if decide (ith_try + 1 < maxtries)%Z then
             let '(r, w) := rand_randint 8000 (ls_world st1) in
             mk_loop_state r w (ls_model st1) (ls_seeds st1)
           else st1)
  end.

(** Lines 105-128: the attempts of [sep_method == 'ica']. *)
Definition ica_attempts (S : ndarray R) (n_components : nat) (maxiter : Z)
    (tol : R) (random_state : Z) (maxtries : Z) (w : world)
    : loop_state FastICA :=
  retry_loop
    (λ rs, FastICA_fit n_components maxiter tol rs (transpose S))
    (λ ica, bool_decide (ica_n_iter_ ica < maxiter)%Z)
    maxtries (py_range maxtries)
    (mk_loop_state random_state w None []).

(** Lines 102-136: [sep_method == 'ica']. With no attempt made, [ica]
    is unbound when line 130 reads it. *)
Definition factorise_ica (S : ndarray R) (n_components : nat) (maxiter : Z)
    (tol : R) (random_state : Z) (maxtries : Z) (w : world)
    : result factorised * world :=
  let st := ica_attempts S n_components maxiter tol random_state maxtries w in
  match ls_model st with
  | None => (Raise UnboundLocalError, ls_world st)
  | Some ica =>
      (Ok (mk_factorised (ica_fit_transform ica) (ica_mixing_ ica)
             (ls_random_state st) (ica_n_iter_ ica)),
       ls_world st)
  end.

(** Lines 139-161: the attempts of [sep_method == 'nmf_sklearn']. *)
Definition nmf_sklearn_attempts (S : ndarray R) (n_components : nat)
    (maxiter : Z) (tol : R) (random_state : Z) (maxtries : Z) (w : world)
    : loop_state NMF :=
  retry_loop
    (λ rs, NMF_fit maxiter n_components tol rs (transpose S))
    (λ nmf, bool_decide (nmf_n_iter_ nmf < maxiter - 1)%Z)
    maxtries (py_range maxtries)
    (mk_loop_state random_state w None []).

(** Lines 138-169: [sep_method == 'nmf_sklearn']. *)
Definition factorise_nmf_sklearn (S : ndarray R) (n_components : nat)
    (maxiter : Z) (tol : R) (random_state : Z) (maxtries : Z) (w : world)
    : result factorised * world :=
  let st :=
    nmf_sklearn_attempts S n_components maxiter tol random_state maxtries w in
  match ls_model st with
  | None => (Raise UnboundLocalError, ls_world st)
  | Some nmf =>
      (Ok (mk_factorised (nmf_fit_transform nmf)
             (transpose (nmf_components_ nmf))
             (ls_random_state st) (nmf_n_iter_ nmf)),
       ls_world st)
  end.

(** Lines 171-200: [sep_method == 'nmf'], a single nimfa fit. *)
Definition factorise_nmf (S : ndarray R) (n_components : nat) (maxiter : Z)
    (random_state : Z) (w : world) : result factorised * world :=
  let '(nmf_fit, w') := nimfa_Nmf (transpose S) maxiter n_components w in
  (Ok (mk_factorised (fit_basis nmf_fit) (transpose (fit_coef nmf_fit))
         random_state (fit_n_iter nmf_fit)),
   w').

(** Lines 102-203: the dispatch on [sep_method]. *)
Definition factorise (S : ndarray R) (sep_method : string)
    (n_components : n_components_arg) (maxiter : Z) (tol : R)
    (random_state : Z) (maxtries : Z) (w : world)
    : result factorised * world :=
  if decide (sep_method = "ica") then
    match as_int n_components with
    | Ok k => factorise_ica S k maxiter tol random_state maxtries w
    | Raise e => (Raise e, w)
    end
  else if decide (sep_method = "nmf_sklearn") then
    match as_int n_components with
    | Ok k => factorise_nmf_sklearn S k maxiter tol random_state maxtries w
    | Raise e => (Raise e, w)
    end
  else if decide (sep_method = "nmf") then
    match as_int n_components with
    | Ok k => factorise_nmf S k maxiter random_state w
    | Raise e => (Raise e, w)
    end
  else (Raise ValueError, w).

(** Lines 213-215: one pass of the normalisation loop. *)
Definition normalise_column (j : nat) (A : ndarray R) : result (ndarray R) :=
  c ← getcol A j;
  if decide (np_sum c ≠ 0) then
    c' ← getcol A j;
    d ← getcol A j;
    q ← vdiv c' (np_sum d);
    setcol A j q
  else Ok A.

(** Lines 212-215. *)
Definition normalise (A_sep : ndarray R) (n_components : nat)
    : result (ndarray R) :=
  for_each (range n_components) normalise_column (nd_abs A_sep).

(** Lines 225-231: one pass of the matching loop. *)
Definition match_component (S : ndarray R) (sep_method : string)
    (S_sep A_sep : ndarray R) (order : list nat) (j : nat)
    (S_matched : ndarray R) : result (ndarray R) :=
  oj ← match order !! j with Some o => Ok o | None => Raise IndexError end;
  a ← getitem A_sep 0 oj;
  c ← getcol S_sep oj;
  let s_ := vscale a c in
  S_matched ← setcol S_matched j s_;
  if decide (sep_method = "ica") then
    m ← getcol S_matched j;
    p ← getrow S 0;
    setcol S_matched j (vshift (np_mean p) m)
  else if decide (sep_method = "nmf" ∨ sep_method = "nmf_sklearn") then
    m ← getcol S_matched j;
    p ← getrow S 0;
    m' ← getcol S_matched j;
    setcol S_matched j (vshift (np_mean p - np_mean m') m)
  else Ok S_matched.

(** Lines 206-231. *)
Definition match_components (S : ndarray R) (sep_method : string)
    (n_components : nat) (S_sep A_sep : ndarray R) : result (ndarray R) :=
  let S_matched := np_zeros (np_shape S_sep) in
  A ← normalise A_sep n_components;
  scores ← getrow A 0;
  let order := reverse (np_argsort scores) in
  for_each (range n_components)
    (match_component S sep_method S_sep A_sep order) S_matched.

(** Lines 234-247. *)
Definition convergence_info (sep_method : string) (maxiter : Z)
    (f : factorised) : gmap string pyval :=
  let convergence : gmap string pyval := ∅ in
  let convergence := <["max_iterations" := PInt maxiter]> convergence in
  if decide (sep_method = "ica") then
    let convergence :=
      <["random_state" := PInt (f_random_state f)]> convergence in
    let convergence := <["iterations" := PInt (f_n_iter f)]> convergence in
    <["converged" := PBool (negb (bool_decide (f_n_iter f = maxiter)))]>
      convergence
  else if decide (sep_method = "nmf") then
    let convergence :=
      <["random_state" := PStr "not yet implemented"]> convergence in
    let convergence := <["iterations" := PInt (f_n_iter f)]> convergence in
    <["converged" := PBool (negb (bool_decide (f_n_iter f = maxiter)))]>
      convergence
  else if decide (sep_method = "nmf_sklearn") then
    let convergence :=
      <["random_state" := PStr "not yet implemented"]> convergence in
    let convergence :=
      <["iterations" := PStr "not yet implemented"]> convergence in
    <["converged" := PStr "not yet implemented"]> convergence
  else convergence.

Definition separate (S : ndarray R) (sep_method : string)
    (n_components : n_components_arg) (maxiter : Z) (tol : R)
    (random_state : Z) (maxtries : Z) (w : world)
    : result separated * world :=
  let n_components := infer_n_components S n_components in
  let '(r, w') :=
    factorise S sep_method n_components maxiter tol random_state maxtries w in
  (f ← r;
   k ← as_int n_components;
   S_matched ← match_components S sep_method k (f_S_sep f) (f_A_sep f);
   let convergence := convergence_info sep_method maxiter f in
   Ok (mk_separated (transpose (f_S_sep f)) (transpose S_matched)
         (f_A_sep f) convergence),
   w').

(** The closure [mincorr] of [subtract_pil]. *)
Definition mincorr (sig pil : list R) (x : R) : R :=
  let sig_ := vsub sig (vscale x pil) in
  let corr := np_corrcoef sig_ pil in
  sqrt (corr ^ 2).

(** For [sig] and [pil] of different lengths, [sig - x*pil] broadcasts a
    one-sample [sig] against [pil]; every other pair makes the subtraction
    or [numpy.corrcoef] raise [ValueError] on the first evaluation of
    [mincorr]. The length tests stand for that. *)
Definition subtract_pil (sig pil : list R) (lower_bound upper_bound : R)
    : result (list R * R) :=
  if decide (length sig = length pil) then
    let search_bounds := (lower_bound, upper_bound) in
    a ← minimize_scalar (mincorr sig pil) search_bounds;
    let sig_corrected :=
      vshift (np_mean (vscale a pil)) (vsub sig (vscale a pil)) in
    Ok (sig_corrected, a)
  else
    match sig with
    | [s0] =>
        let sig := replicate (length pil) s0 in
        let search_bounds := (lower_bound, upper_bound) in
        a ← minimize_scalar (mincorr sig pil) search_bounds;
        let sig_corrected :=
          vshift (np_mean (vscale a pil)) (vsub sig (vscale a pil)) in
        Ok (sig_corrected, a)
    | _ => Raise ValueError
    end.

(** [np.mean(M[:, 1:], axis=1)]. (For a matrix that has column 0 only,
    numpy's mean of the empty slice is nan, which the reals do not have.) *)
Definition mean_of_rings (M : ndarray R) : list R :=
  map (λ r, np_mean (drop 1 r)) (nd_data M).

(** One pass of the loop of [subtract_dict]. *)
Definition subtract_entry (S : gmap nat (ndarray R)) (i : nat)
    (acc : gmap nat (list R) * gmap nat R)
    : result (gmap nat (list R) * gmap nat R) :=
  let '(S_subtract, a) := acc in
  Si ← match S !! i with Some M => Ok M | None => Raise KeyError end;
  sig ← getcol Si 0;
  '(s, g) ← subtract_pil sig (mean_of_rings Si) 0 1.5;
  Ok (<[i:=s]> S_subtract, <[i:=g]> a).

Definition subtract_dict (S : gmap nat (ndarray R)) (n_noncell : nat)
    : result (gmap nat (list R) * gmap nat R) :=
  for_each (seq n_noncell (size S - n_noncell)) (subtract_entry S) (∅, ∅).

End with_libraries.

End neuropil.

(** * fissa/extraction.py *)

Module extraction.

(** A 3-d array shaped [(frames, y, x)], as [tifffile.imread] returns. *)
Record array3 : Type := mk_array3 {
  a3_frames : nat;
  a3_y : nat;
  a3_x : nat;
  a3_data : list (ndarray R)
}.

Definition array3_wf (data : array3) : Prop :=
  length (a3_data data) = a3_frames data ∧
  Forall (λ fr, nd_wf fr ∧ np_shape fr = (a3_y data, a3_x data))
    (a3_data data).

(** An open [PIL.Image] handle on a multi-frame TIFF: [size] is
    [(width, height)]; [im_tell] is the frame the handle points at. *)
Record PIL_Image : Type := mk_PIL_Image {
  im_size : nat * nat;
  im_n_frames : nat;
  im_frames : list (ndarray R);
  im_tell : nat
}.

Definition PIL_Image_wf (data : PIL_Image) : Prop :=
  length (im_frames data) = im_n_frames data ∧
  Forall (λ fr, nd_wf fr ∧ np_shape fr = ((im_size data).2, (im_size data).1))
    (im_frames data).

(** [data.seek(f)] *)
Definition seek (data : PIL_Image) (f : nat) : result PIL_Image :=
  if decide (f < im_n_frames data)%nat then
    Ok (mk_PIL_Image (im_size data) (im_n_frames data) (im_frames data) f)
  else Raise EOFError.

(** [np.asarray(data)]: the frame the handle points at. *)
Definition asarray (data : PIL_Image) : result (ndarray R) :=
  match im_frames data !! im_tell data with
  | Some fr => Ok fr
  | None => Raise EOFError
  end.

(** An array-like element of a ROI list, seen through [np.shape]. *)
Record array_like : Type := mk_array_like {
  al_shape : list nat;
  al_values : list R
}.

(** The [rois] argument: a path, a list of array-likes, or an object that
    is not a [Sequence]. *)
Inductive rois_arg : Type :=
  | RoisPath (path : string)
  | RoisSequence (rois : list array_like)
  | RoisOther.

(** What [rois2masks] hands back: the result of
    [roitools.getmasks(rois, shape)], or the list it was given. *)
Inductive masks_source : Type :=
  | getmasks (rois : list array_like) (shape : list nat)
  | masks_given (rois : list array_like).

(** [t[i]] on a tuple or list *)
Definition index {A} (t : list A) (i : nat) : result A :=
  match t !! i with
  | Some x => Ok x
  | None => Raise IndexError
  end.

(** The pixels of a row picked by a row of a boolean mask. *)
Fixpoint compress (m : list bool) (v : list R) : list R :=
  match m, v with
  | b :: m', x :: v' => if b then x :: compress m' v' else compress m' v'
  | _, _ => []
  end.

(** The pixels picked by a mask, in row-major order. *)
Definition masked (mask : ndarray bool) (frame : ndarray R) : list R :=
  concat (zip_with compress (nd_data mask) (nd_data frame)).

(** [frame[mask]] for a boolean [mask]: the shapes have to agree. *)
Definition bool_index (frame : ndarray R) (mask : ndarray bool)
    : result (list R) :=
  if decide (np_shape mask = np_shape frame) then Ok (masked mask frame)
  else Raise IndexError.

(** [data[:, mask]]: one row of picked pixels per frame. *)
Definition bool_index3 (data : array3) (mask : ndarray bool)
    : result (list (list R)) :=
  if decide (np_shape mask = (a3_y data, a3_x data)) then
    Ok (map (masked mask) (a3_data data))
  else Raise IndexError.

(** The value at row [i] and column [j], without the bounds check. *)
Definition pixel (frame : ndarray R) (i j : nat) : R :=
  nth j (nth i (nd_data frame) []) 0.

(** An axis of length 1 stretched to length [n], as numpy broadcasts it;
    an axis that has length [n] already is kept. *)
Definition stretch {A} (n : nat) (l : list A) : list A :=
  match l with
  | [x] => replicate n x
  | _ => l
  end.

(** [A += B]: [B] is broadcast to the shape of [A]. *)
Definition nd_iadd (A B : ndarray R) : result (ndarray R) :=
  if decide ((nd_rows B = nd_rows A ∨ nd_rows B = 1%nat) ∧
             (nd_cols B = nd_cols A ∨ nd_cols B = 1%nat)) then
    let B' := stretch (nd_rows A) (map (stretch (nd_cols A)) (nd_data B)) in
    Ok (mk_ndarray (nd_rows A) (nd_cols A)
          (zip_with (zip_with Rplus) (nd_data A) B'))
  else Raise ValueError.

(** [A /= d]; a zero divisor is made observable as for [vdiv]. *)
Definition nd_idiv (A : ndarray R) (d : R) : result (ndarray R) :=
  if decide (d = 0) then Raise FloatingPointError
  else Ok (mk_ndarray (nd_rows A) (nd_cols A)
             (map (map (λ v, v / d)) (nd_data A))).

(** [roitools.readrois], which reads the polygons of an ImageJ archive. *)
Class Roitools : Type := { readrois : string → list array_like }.

Module DataHandlerTifffile.

(** [data.mean(axis=0)]: pixel by pixel, the mean over the frames. (On
    a movie without frames numpy fills the image with nan, which the reals
    do not have.) *)
Definition getmean (data : array3) : ndarray R :=
  mk_ndarray (a3_y data) (a3_x data)
    (map (λ i,
            map (λ j, np_mean (map (λ frame, pixel frame i j) (a3_data data)))
              (seq 0 (a3_x data)))
       (seq 0 (a3_y data))).

Definition rois2masks `{Roitools} (rois : rois_arg) (data : array3)
    : result masks_source :=
  let shape := [a3_y data; a3_x data] in
  let rois :=
    match rois with
    | RoisPath path => RoisSequence (readrois path)
    | _ => rois
    end in
  match rois with
  | RoisSequence rois =>
      r0 ← index rois 0;
      d1 ← index (al_shape r0) 1;
      if decide (d1 = 2%nat) then Ok (getmasks rois shape)
      else
        r0 ← index rois 0;
        d0 ← index (al_shape r0) 0;
        if decide (d0 = 2%nat) then Ok (getmasks rois shape)
        else
          r0 ← index rois 0;
          if decide (al_shape r0 = shape) then Ok (masks_given rois)
          else Raise ValueError
  | _ => Raise TypeError
  end.

Definition extracttraces (data : array3) (masks : list (ndarray bool))
    : result (ndarray R) :=
  let nrois := length masks in
  let nframes := a3_frames data in
  let out := np_zeros (nrois, nframes) in
  for_each (range nrois)
    (λ i out,
       mask ← index masks i;
       picked ← bool_index3 data mask;
       setrow out i (map np_mean picked))
    out.

End DataHandlerTifffile.

Module DataHandlerPillow.

(** [ImageSequence.Iterator(data)] hands out the handle moved to frame
    0, 1, ... in turn and stops when [seek] raises [EOFError], that is
    after [n_frames] frames. The handle is returned with the image. *)
Definition getmean (data : PIL_Image) : result (ndarray R * PIL_Image) :=
  let avg := np_zeros ((im_size data).2, (im_size data).1) in
  data ← seek data 0;
  '(data, avg) ←
    for_each (range (im_n_frames data))
      (λ f '(data, avg),
         frame ← seek data f;
         pixels ← asarray frame;
         avg ← nd_iadd avg pixels;
         Ok (frame, avg))
      (data, avg);
  avg ← nd_idiv avg (INR (im_n_frames data));
  Ok (avg, data).

Definition rois2masks `{Roitools} (rois : rois_arg) (data : PIL_Image)
    : result masks_source :=
  let shape := [(im_size data).2; (im_size data).1] in
  let rois :=
    match rois with
    | RoisPath path => RoisSequence (readrois path)
    | _ => rois
    end in
  match rois with
  | RoisSequence rois =>
      r0 ← index rois 0;
      d1 ← index (al_shape r0) 1;
      if decide (d1 = 2%nat) then Ok (getmasks rois shape)
      else
        r0 ← index rois 0;
        d0 ← index (al_shape r0) 0;
        if decide (d0 = 2%nat) then Ok (getmasks rois shape)
        else
          r0 ← index rois 0;
          if decide (al_shape r0 = shape) then Ok (masks_given rois)
          else Raise ValueError
  | _ => Raise TypeError
  end.

(** The inner loop of [extracttraces]: frame [f] is the current one. *)
Definition extract_frame (curframe : ndarray R)
    (masks : list (ndarray bool)) (f : nat) (out : ndarray R)
    : result (ndarray R) :=
  for_each (range (length masks))
    (λ i out,
       mask ← index masks i;
       picked ← bool_index curframe mask;
       setitem out i f (np_mean picked))
    out.

(** The handle is returned with the array: [seek] moves it. *)
Definition extracttraces (data : PIL_Image) (masks : list (ndarray bool))
    : result (ndarray R * PIL_Image) :=
  let nrois := length masks in
  data ← seek data 0;
  let nframes := im_n_frames data in
  let out := np_zeros (nrois, nframes) in
  '(data, out) ←
    for_each (range nframes)
      (λ f '(data, out),
         data ← seek data f;
         curframe ← asarray data;
         out ← extract_frame curframe masks f out;
         Ok (data, out))
      (data, out);
  Ok (out, data).

End DataHandlerPillow.

End extraction.

(** * fissa/core.py: saving the stages of an experiment *)

Module core.

(** The named arrays of one stage, as they go into an [.npz] snapshot. *)
Definition snapshot : Type := gmap string (ndarray R).

(** The file system: snapshots by path. *)
Definition filesystem : Type := gmap string snapshot.

(** [os.path.join(folder, name)] for a relative [name]. *)
Definition path_join (folder name : string) : string :=
  if decide (folder = "") then name else folder +:+ "/" +:+ name.

(** Modelled from the spec: class [Experiment] of fissa/core.py, of which
    only the tests are at hand. An experiment holds its cache directory,
    if one was configured, and the data of its two stages. *)
Record Experiment : Type := mk_Experiment {
  folder : option string;
  preparation : snapshot;
  separation : snapshot
}.

(** Modelled from the spec: the explicit save of one stage, missing with
    fissa/core.py. It writes to [destination] when one is given, else
    under the cache directory, and fails with an invalid-argument error
    when there is neither. *)
Definition save_stage (exp : Experiment) (name : string) (stage : snapshot)
    (destination : option string) (fs : filesystem) : result filesystem :=
  match destination with
  | Some path => Ok (<[path := stage]> fs)
  | None =>
      match folder exp with
      | Some dir => Ok (<[path_join dir name := stage]> fs)
      | None => Raise ValueError
      end
  end.

(** Modelled from the spec: [Experiment.save_prep], missing with
    fissa/core.py. *)
Definition save_prep (exp : Experiment) (destination : option string)
    (fs : filesystem) : result filesystem :=
  save_stage exp "preparation.npz" (preparation exp) destination fs.

(** Modelled from the spec: [Experiment.save_separated], missing with
    fissa/core.py. *)
Definition save_separated (exp : Experiment) (destination : option string)
    (fs : filesystem) : result filesystem :=
  save_stage exp "separated.npz" (separation exp) destination fs.

End core.


(** * Contracts of the libraries and notions used in the statements *)

Import neuropil.

(** The data matrix [X] (one sample per row, one feature per column) and
    the component count [k] that the factorisation routines accept. *)
Definition valid_data (X : ndarray R) (k : nat) : Prop :=
  nd_wf X ∧ (0 < k)%nat ∧ (k ≤ nd_cols X)%nat ∧ (k ≤ nd_rows X)%nat.

(** A trace matrix (one region per row) that [separate] can factorise into
    [k] components: [separate] fits on [S.T]. *)
Definition valid_traces (S : ndarray R) (k : nat) : Prop :=
  nd_wf S ∧ (0 < k)%nat ∧ (k ≤ nd_rows S)%nat ∧ (k ≤ nd_cols S)%nat.

(** What the documentation of the libraries promises and [separate] and
    [subtract_pil] rely on: the shapes of the fitted attributes, iteration
    counts within the budget, [argsort] returning the indices in ascending
    order of value, and a bounded minimiser that stays within its bounds. *)
Class LibrariesOk `{Libraries} : Prop := {
  FastICA_shape k maxiter tol rs X :
    valid_data X k →
    let ica := FastICA_fit k maxiter tol rs X in
    nd_wf (ica_fit_transform ica) ∧
    np_shape (ica_fit_transform ica) = (nd_rows X, k) ∧
    nd_wf (ica_mixing_ ica) ∧
    np_shape (ica_mixing_ ica) = (nd_cols X, k);
  FastICA_n_iter k maxiter tol rs X :
    (ica_n_iter_ (FastICA_fit k maxiter tol rs X) ≤ maxiter)%Z;
  NMF_shape k maxiter tol rs X :
    valid_data X k →
    let nmf := NMF_fit maxiter k tol rs X in
    nd_wf (nmf_fit_transform nmf) ∧
    np_shape (nmf_fit_transform nmf) = (nd_rows X, k) ∧
    nd_wf (nmf_components_ nmf) ∧
    np_shape (nmf_components_ nmf) = (k, nd_cols X);
  nimfa_shape k maxiter X w :
    valid_data X k →
    let fit := (nimfa_Nmf X maxiter k w).1 in
    nd_wf (fit_basis fit) ∧
    np_shape (fit_basis fit) = (nd_rows X, k) ∧
    nd_wf (fit_coef fit) ∧
    np_shape (fit_coef fit) = (k, nd_cols X);
  nimfa_n_iter k maxiter X w :
    (fit_n_iter (nimfa_Nmf X maxiter k w).1 ≤ maxiter)%Z;
  argsort_perm v : np_argsort v ≡ₚ seq 0 (length v);
  argsort_sorted v i j a b :
    (i ≤ j)%nat → np_argsort v !! i = Some a → np_argsort v !! j = Some b →
    nth a v 0 <= nth b v 0;
  minimize_scalar_bounded f lo hi :
    lo <= hi → ∃ x, minimize_scalar f (lo, hi) = Ok x ∧ lo <= x <= hi
}.

(** [n] successive draws of [rand.randint(8000)]: the values and the state
    of the generator after them. *)
Fixpoint draws `{Libraries} (n : nat) (w : world) : list Z * world :=
  match n with
  | O => ([], w)
  | S n' =>
      let '(r, w1) := rand_randint 8000 w in
      let '(rs, w2) := draws n' w1 in
      (r :: rs, w2)
  end.

(** What a retry loop started with [random_state] in world [w] has done
    when it stops in state [st]: it made [m] attempts, between 1 and
    [maxtries]; the first with [random_state], each later one with a fresh
    draw of [randint(8000)]; all but the last failed to converge; the last
    converged, or was attempt number [maxtries]. *)
Definition retry_policy `{Libraries} {F} (fit : Z → F) (converged : F → bool)
    (random_state maxtries : Z) (w : world) (st : loop_state F) (m : nat)
    : Prop :=
  (1 ≤ m ≤ Z.to_nat maxtries)%nat ∧
  length (ls_seeds st) = m ∧
  ls_seeds st = random_state :: (draws (m - 1) w).1 ∧
  ls_world st = (draws (m - 1) w).2 ∧
  ls_random_state st = List.last (ls_seeds st) random_state ∧
  ls_model st = Some (fit (ls_random_state st)) ∧
  Forall (λ s, converged (fit s) = false) (removelast (ls_seeds st)) ∧
  (converged (fit (ls_random_state st)) = true ∨ m = Z.to_nat maxtries).

(** A weight vector divided by its sum, or left alone when the sum is 0. *)
Definition normalised (col : list R) : list R :=
  if decide (np_sum col ≠ 0) then map (λ x, x / np_sum col) col else col.

(** The shift [separate] applies to the scaled component [s_]: the mean of
    the primary signal for ICA; for the NMF methods that mean less the
    mean of [s_] itself. *)
Definition recentred (sep_method : string) (primary_mean : R) (s_ : list R)
    : list R :=
  if decide (sep_method = "ica") then vshift primary_mean s_
  else vshift (primary_mean - np_mean s_) s_.

(** [S[:k]]: the first [k] region vectors of a trace matrix. *)
Definition first_signals (k : nat) (S : ndarray R) : ndarray R :=
  mk_ndarray (k `min` nd_rows S) (nd_cols S) (take k (nd_data S)).



(** The scores of the components: row 0 of the normalised absolute mixing
    matrix. *)
Definition scores_of (A_sep : ndarray R) (k : nat) : result (list R) :=
  A ← normalise A_sep k; getrow A 0.

(** The rows of [M] in the order [σ]: row [i] of the result is row
    [σ[i]] of [M]. *)
Definition permute_rows (σ : list nat) (M : ndarray R) : ndarray R :=
  mk_ndarray (nd_rows M) (nd_cols M) (map (λ i, nth i (nd_data M) []) σ).

(** [σ] reorders [n] regions and keeps the primary region, number 0, in
    its place. *)
Definition neuropil_permutation (σ : list nat) (n : nat) : Prop :=
  σ ≡ₚ seq 0 n ∧ σ !! 0%nat = Some 0%nat.

(** The array and the handle hold the same movie: the same frames, as
    many of them, and the same frame shape. *)
Definition same_movie (data : extraction.array3)
    (image : extraction.PIL_Image) : Prop :=
  extraction.im_frames image = extraction.a3_data data ∧
  extraction.im_n_frames image = extraction.a3_frames data ∧
  extraction.im_size image = (extraction.a3_x data, extraction.a3_y data).

(** The trace of one mask: per frame, the mean of the pixels it picks. *)
Definition mask_trace (frames : list (ndarray R)) (mask : ndarray bool)
    : list R :=
  map (λ frame, np_mean (extraction.masked mask frame)) frames.

(** The trace matrix of a movie: one trace per mask, one entry per
    frame. *)
Definition traces_of (data : extraction.array3)
    (masks : list (ndarray bool)) : ndarray R :=
  mk_ndarray (length masks) (extraction.a3_frames data)
    (map (mask_trace (extraction.a3_data data)) masks).

(** Entry [(i, j)] of an array, if it is there. *)
Definition entry (M : ndarray R) (i j : nat) : option R :=
  r ← nd_data M !! i; r !! j.

(** Pixel by pixel, the sum over the frames: what the streaming handler
    has accumulated after these frames. *)
Definition sum_image (frames : list (ndarray R)) (y x : nat)
    : list (list R) :=
  map (λ i,
         map (λ j, np_sum (map (λ frame, extraction.pixel frame i j) frames))
           (seq 0 x))
    (seq 0 y).

(** How [rois2masks] chooses, as a property of a handler [rois2masks]
    whose image has frame shape [shape]: an object that is not a sequence
    is a [TypeError]; a path stands for the polygons read from it; and a
    sequence whose first element has the dimensions [d0, d1, ...] is
    rasterised as polygons when [d1] or [d0] is 2, else returned as masks
    when that shape is the frame shape, else a [ValueError]. *)
Definition dispatches_on_shape `{extraction.Roitools}
    (rois2masks : extraction.rois_arg → result extraction.masks_source)
    (shape : list nat) : Prop :=
  rois2masks extraction.RoisOther = Raise TypeError ∧
  (∀ path,
     rois2masks (extraction.RoisPath path) =
     rois2masks (extraction.RoisSequence (extraction.readrois path))) ∧
  ∀ r0 rois d0 d1 dims,
    extraction.al_shape r0 = d0 :: d1 :: dims →
    let given := extraction.RoisSequence (r0 :: rois) in
    (d1 = 2%nat ∨ d0 = 2%nat →
     rois2masks given = Ok (extraction.getmasks (r0 :: rois) shape)) ∧
    (d1 ≠ 2%nat → d0 ≠ 2%nat → extraction.al_shape r0 = shape →
     rois2masks given = Ok (extraction.masks_given (r0 :: rois))) ∧
    (d1 ≠ 2%nat → d0 ≠ 2%nat → extraction.al_shape r0 ≠ shape →
     rois2masks given = Raise ValueError).

(** * Stand-ins for the libraries, for worked examples

    Small, fully defined routines with the shapes and contracts of the
    real ones. Nothing is claimed about the numbers sklearn, nimfa or scipy
    would produce; the examples only exercise the code around them. *)

Module example_libraries.

(** Transformed data: component [c] is [c + 1] times the first feature. *)
Definition scaled_primary (k : nat) (X : ndarray R) : ndarray R :=
  mk_ndarray (nd_rows X) k
    (map (λ sample, map (λ c, INR (S c) * nth 0 sample 0) (seq 0 k))
       (nd_data X)).

(** Mixing weights: the weight of feature [i] in component [c] is the
    value of that feature in sample [c]. *)
Definition sample_weights (k : nat) (X : ndarray R) : ndarray R :=
  mk_ndarray (nd_cols X) k
    (map (λ i, map (λ c, nth i (nth c (nd_data X) []) 0) (seq 0 k))
       (seq 0 (nd_cols X))).

(** Iterations used: the whole budget when the tolerance cannot be met
    or the seed is even, one otherwise. *)
Definition iterations (maxiter : Z) (tol : R) (seed : Z) : Z :=
  if decide (tol <= 0) then maxiter
  else if Z.even seed then maxiter else Z.min maxiter 1.

(** Insertion of index [i] into a list of indices sorted by value. *)
Fixpoint insert_index (v : list R) (i : nat) (sorted : list nat) : list nat :=
  match sorted with
  | [] => [i]
  | j :: rest =>
      if decide (nth i v 0 < nth j v 0) then i :: j :: rest
      else j :: insert_index v i rest
  end.

(** A stable insertion argsort. *)
Definition argsort (v : list R) : list nat :=
  foldl (λ sorted i, insert_index v i sorted) [] (seq 0 (length v)).

(** Index [a] holds a value no larger than index [b] does. *)
Definition by_value (v : list R) (a b : nat) : Prop :=
  nth a v 0 <= nth b v 0.

(** Pearson's correlation coefficient. *)
Definition corrcoef (x y : list R) : R :=
  let dx := vshift (- np_mean x) x in
  let dy := vshift (- np_mean y) y in
  np_sum (zip_with Rmult dx dy) /
  (sqrt (np_sum (zip_with Rmult dx dx)) * sqrt (np_sum (zip_with Rmult dy dy))).

(** A three-point search: the best of the two ends and the middle. *)
Definition grid_minimize (f : R → R) (bounds : R * R) : result R :=
  let '(lo, hi) := bounds in
  if decide (hi < lo) then Raise ValueError
  else
    let mid := (lo + hi) / 2 in
    let best := if decide (f mid < f lo) then mid else lo in
    Ok (if decide (f hi < f best) then hi else best).

(** The world counts the draws of [randint] and the fits of nimfa. *)
#[export] Instance libraries : Libraries := {|
  world := nat * nat;
  rand_randint high w := ((7 * Z.of_nat w.1 + 1) mod high, (S w.1, w.2))%Z;
  PCA_explained_variance_ratio_ X :=
    replicate (nd_rows X `min` nd_cols X)
      (/ INR (nd_rows X `min` nd_cols X));
  FastICA_fit k maxiter tol rs X :=
    mk_FastICA (scaled_primary k X) (iterations maxiter tol rs)
      (sample_weights k X);
  NMF_fit maxiter k tol rs X :=
    mk_NMF (scaled_primary k X) (iterations maxiter tol rs - 1)
      (transpose (sample_weights k X));
  nimfa_Nmf X maxiter k w :=
    (mk_Nmf_fit (scaled_primary k X) (transpose (sample_weights k X))
       (if Nat.even w.2 then maxiter else Z.min maxiter 1),
     (w.1, S w.2));
  np_argsort := argsort;
  np_corrcoef := corrcoef;
  minimize_scalar := grid_minimize
|}.

(** An archive reader that finds one triangle, whatever the path. *)
#[export] Instance roitools : extraction.Roitools := {|
  extraction.readrois _ :=
    [extraction.mk_array_like [3; 2]%nat [0; 0; 4; 0; 0; 4]]
|}.

(** No draw and no fit so far. *)
Definition fresh_world : world := (0, 0)%nat.

End example_libraries.
(** * Properties *)

(** ** The error monad and loops *)

Lemma bind_Ok {A B} (m : result A) (f : A → result B) (b : B) :
  m ≫= f = Ok b ↔ ∃ a, m = Ok a ∧ f a = Ok b.
Proof.
  destruct m as [a|e]; simpl.
  - split; [intros Hf; exists a; done | intros (a' & [= <-] & Hf); done].
  - split; [done | intros (a' & [=] & _)].
Qed.

Lemma bind_ret {A B} (a : A) (f : A → result B) : Ok a ≫= f = f a.
Proof. done. Qed.

Lemma bind_raise {A B} (e : exn) (f : A → result B) : Raise e ≫= f = Raise e.
Proof. done. Qed.

(** A loop over [seq a n] keeps an invariant indexed by the loop counter. *)
Lemma for_each_seq_inv {St} (P : nat → St → Prop)
    (body : nat → St → result St) (n a : nat) (s : St) :
  P a s →
  (∀ j t, (a ≤ j < a + n)%nat → P j t → ∃ t', body j t = Ok t' ∧ P (S j) t') →
  ∃ s', for_each (seq a n) body s = Ok s' ∧ P (a + n)%nat s'.
Proof.
  revert a s. induction n as [|n IH]; intros a s Ha Hstep; simpl.
  - exists s. rewrite Nat.add_0_r. done.
  - destruct (Hstep a s) as (t & -> & Ht); [lia | done |]. simpl.
    destruct (IH (S a) t) as (s' & Hs' & HP); [done | |].
    + intros j u Hj. apply Hstep. lia.
    + exists s'. split; [done|]. by replace (a + S n)%nat with (S a + n)%nat by lia.
Qed.

Lemma for_each_range_inv {St} (P : nat → St → Prop)
    (body : nat → St → result St) (n : nat) (s : St) :
  P 0%nat s →
  (∀ j t, (j < n)%nat → P j t → ∃ t', body j t = Ok t' ∧ P (S j) t') →
  ∃ s', for_each (range n) body s = Ok s' ∧ P n s'.
Proof.
  intros H0 Hstep.
  destruct (for_each_seq_inv P body n 0 s) as (s' & ? & ?); eauto.
  intros j t Hj. apply Hstep. lia.
Qed.

(** ** Sums and means *)

Lemma np_sum_app (u v : list R) : np_sum (u ++ v) = np_sum u + np_sum v.
Proof. induction u as [|x u IH]; simpl; [lra | rewrite IH; lra]. Qed.

Lemma np_sum_vscale (a : R) (v : list R) : np_sum (vscale a v) = a * np_sum v.
Proof. induction v as [|x v IH]; simpl; [lra | rewrite IH; lra]. Qed.

Lemma np_sum_vshift (c : R) (v : list R) :
  np_sum (vshift c v) = np_sum v + INR (length v) * c.
Proof.
  induction v as [|x v IH]; [simpl; lra|].
  change (np_sum (vshift c (x :: v))) with (x + c + np_sum (vshift c v)).
  rewrite IH. change (length (x :: v)) with (S (length v)).
  rewrite S_INR. simpl. lra.
Qed.

Lemma np_sum_div (v : list R) (d : R) :
  np_sum (map (λ x, x / d) v) = np_sum v / d.
Proof. induction v as [|x v IH]; simpl; [lra | rewrite IH; lra]. Qed.

Lemma np_sum_vsub (u v : list R) :
  length u = length v → np_sum (vsub u v) = np_sum u - np_sum v.
Proof.
  revert v. induction u as [|x u IH]; intros [|y v] Hl; simpl in *;
    try lia; [lra|].
  unfold vsub in IH. rewrite IH by lia. lra.
Qed.

Lemma np_sum_Permutation (u v : list R) : u ≡ₚ v → np_sum u = np_sum v.
Proof. induction 1; simpl; lra. Qed.

Lemma length_vscale a v : length (vscale a v) = length v.
Proof. apply length_map. Qed.

Lemma length_vshift c v : length (vshift c v) = length v.
Proof. apply length_map. Qed.

Lemma length_vsub u v : length u = length v → length (vsub u v) = length u.
Proof. intros Hl. unfold vsub. rewrite length_zip_with. lia. Qed.

(** Shifting by [c] moves the mean by [c]. *)
Lemma np_mean_vshift (c : R) (v : list R) :
  v ≠ [] → np_mean (vshift c v) = np_mean v + c.
Proof.
  intros Hv. unfold np_mean. rewrite np_sum_vshift, length_vshift.
  assert (INR (length v) ≠ 0).
  { apply not_0_INR. destruct v; simpl; [done | lia]. }
  field. done.
Qed.

Lemma np_mean_nil : np_mean [] = 0.
Proof. unfold np_mean. simpl. unfold Rdiv. lra. Qed.

(** All entries non-negative and the sum zero: all entries zero. *)
Lemma np_sum_nonneg (v : list R) : Forall (λ x, 0 <= x) v → 0 <= np_sum v.
Proof. induction 1; simpl; lra. Qed.

Lemma np_sum_zero_all_zero (v : list R) :
  Forall (λ x, 0 <= x) v → np_sum v = 0 → Forall (λ x, x = 0) v.
Proof.
  induction 1 as [|x v Hx Hv IH]; simpl; intros Hs; [done|].
  pose proof (np_sum_nonneg v Hv).
  constructor; [lra | apply IH; lra].
Qed.

(** ** Arrays *)

Lemma length_column (j : nat) (M : ndarray R) :
  length (column j M) = length (nd_data M).
Proof. apply length_map. Qed.

Lemma column_lookup (j i : nat) (M : ndarray R) :
  column j M !! i = (λ r, nth j r 0) <$> nd_data M !! i.
Proof. unfold column. by rewrite list_lookup_fmap. Qed.

Lemma np_zeros_wf (shape : nat * nat) : nd_wf (np_zeros shape).
Proof.
  split; simpl; [by rewrite length_replicate|].
  apply Forall_replicate. by rewrite length_replicate.
Qed.

Lemma getcol_Ok (M : ndarray R) (j : nat) :
  (j < nd_cols M)%nat → getcol M j = Ok (column j M).
Proof. intros Hj. unfold getcol. by rewrite decide_True. Qed.

Lemma getcol_inv (M : ndarray R) (j : nat) (c : list R) :
  getcol M j = Ok c → (j < nd_cols M)%nat ∧ c = column j M.
Proof. unfold getcol. case_decide; [intros [= <-]; done | done]. Qed.

Lemma getrow_Ok (M : ndarray R) (i : nat) :
  nd_wf M → (i < nd_rows M)%nat →
  ∃ r, getrow M i = Ok r ∧ nd_data M !! i = Some r ∧ length r = nd_cols M.
Proof.
  intros [Hl Hr] Hi. unfold getrow.
  destruct (lookup_lt_is_Some_2 (nd_data M) i) as [r Hr']; [lia|].
  rewrite Hr'. exists r. split_and!; [done..|].
  by eapply (Forall_lookup_1 _ _ _ _ Hr).
Qed.


Lemma nth_insert_eq (r : list R) (j : nat) (x : R) :
  (j < length r)%nat → nth j (<[j:=x]> r) 0 = x.
Proof.
  intros Hj. apply nth_lookup_Some. by apply list_lookup_insert_eq.
Qed.

Lemma nth_insert_ne (r : list R) (j c : nat) (x : R) :
  c ≠ j → nth c (<[j:=x]> r) 0 = nth c r 0.
Proof.
  intros Hne. rewrite !nth_lookup. by rewrite list_lookup_insert_ne.
Qed.

(** [M[:, j] = v] succeeds on a column of the array, writes [v] there and
    leaves every other column and the shape as they were. *)
Lemma setcol_spec (M : ndarray R) (j : nat) (v : list R) :
  nd_wf M → (j < nd_cols M)%nat → length v = nd_rows M →
  ∃ M', setcol M j v = Ok M' ∧ nd_wf M' ∧ np_shape M' = np_shape M ∧
        column j M' = v ∧ ∀ c, c ≠ j → column c M' = column c M.
Proof.
  intros [Hl Hr] Hj Hv. unfold setcol. rewrite !decide_True by done.
  eexists. split; [done|]. split_and!.
  - split; simpl.
    + rewrite length_zip_with. lia.
    + apply Forall_forall. intros r Hin.
      apply list_elem_of_lookup in Hin as [i Hi].
      apply lookup_zip_with_Some in Hi as (r0 & x & -> & Hr0 & Hx).
      rewrite length_insert. by eapply (Forall_lookup_1 _ _ _ _ Hr).
  - done.
  - apply list_eq. intros i. rewrite column_lookup. simpl.
    rewrite lookup_zip_with.
    destruct (nd_data M !! i) as [r|] eqn:Hi; simpl.
    + destruct (v !! i) as [x|] eqn:Hx; simpl.
      * f_equal. apply nth_insert_eq.
        rewrite (Forall_lookup_1 _ _ _ _ Hr Hi). done.
      * apply lookup_lt_Some in Hi. apply lookup_ge_None in Hx. lia.
    + symmetry. apply lookup_ge_None. apply lookup_ge_None in Hi. lia.
  - intros c Hc. apply list_eq. intros i. rewrite !column_lookup. simpl.
    rewrite lookup_zip_with.
    destruct (nd_data M !! i) as [r|] eqn:Hi; simpl; [|done].
    destruct (v !! i) as [x|] eqn:Hx; simpl.
    + f_equal. by apply nth_insert_ne.
    + apply lookup_lt_Some in Hi. apply lookup_ge_None in Hx. lia.
Qed.

Lemma transpose_wf (M : ndarray R) : nd_wf M → nd_wf (transpose M).
Proof.
  intros [Hl Hr]. split; simpl.
  - by rewrite length_map, length_seq.
  - apply Forall_map, Forall_forall. intros j _. simpl.
    by rewrite length_column.
Qed.

Lemma transpose_shape (M : ndarray R) :
  np_shape (transpose M) = (nd_cols M, nd_rows M).
Proof. done. Qed.


Lemma nth_default_lookup (l : list R) (i : nat) (x : R) :
  l !! i = Some x → nth i l 0 = x.
Proof. apply nth_lookup_Some. Qed.

Lemma map_nth_seq (l : list R) :
  map (λ i, nth i l 0) (seq 0 (length l)) = l.
Proof.
  apply list_eq. intros i. rewrite list_lookup_fmap.
  destruct (decide (i < length l)%nat) as [Hi|Hi].
  - rewrite lookup_seq_lt by done. simpl.
    destruct (lookup_lt_is_Some_2 l i Hi) as [x Hx].
    rewrite Hx. f_equal. by apply nth_default_lookup.
  - rewrite lookup_seq_ge by lia. symmetry. apply lookup_ge_None. lia.
Qed.

(** Column [i] of [M.T] is row [i] of [M]. *)
Lemma transpose_column (M : ndarray R) (i : nat) (r : list R) :
  nd_wf M → nd_data M !! i = Some r → column i (transpose M) = r.
Proof.
  intros [Hl Hr] Hi. unfold column at 1. simpl. rewrite <- list_fmap_compose.
  apply list_eq. intros j. rewrite list_lookup_fmap.
  pose proof (Forall_lookup_1 _ _ _ _ Hr Hi) as Hlen. simpl in Hlen.
  destruct (decide (j < nd_cols M)%nat) as [Hj|Hj].
  - rewrite lookup_seq_lt by done. simpl.
    rewrite nth_lookup, column_lookup, Hi. simpl.
    destruct (lookup_lt_is_Some_2 r j) as [x Hx]; [lia|].
    rewrite Hx. f_equal. by apply nth_default_lookup.
  - rewrite lookup_seq_ge by lia. symmetry. apply lookup_ge_None. lia.
Qed.

Lemma nd_abs_wf (M : ndarray R) : nd_wf M → nd_wf (nd_abs M).
Proof.
  intros [Hl Hr]. split; simpl; [by rewrite length_map|].
  apply Forall_map. eapply Forall_impl; [done|]. intros r Hlen. simpl.
  by rewrite length_map.
Qed.

Lemma column_nd_abs (M : ndarray R) (j : nat) :
  column j (nd_abs M) = map Rabs (column j M).
Proof.
  unfold column. simpl. rewrite <- !list_fmap_compose.
  apply list_fmap_ext. intros _ r _. simpl.
  rewrite !nth_lookup, list_lookup_fmap.
  destruct (r !! j); simpl; [done | by rewrite Rabs_R0].
Qed.

(** ** Normalisation of the mixing weights *)

Section normalisation.
Context `{neuropil.Libraries}.

Lemma normalise_column_spec (A : ndarray R) (j : nat) :
  nd_wf A → (j < nd_cols A)%nat →
  ∃ A', normalise_column j A = Ok A' ∧ nd_wf A' ∧
        np_shape A' = np_shape A ∧
        column j A' = normalised (column j A) ∧
        ∀ c, c ≠ j → column c A' = column c A.
Proof.
  intros Hwf Hj. unfold normalise_column, normalised.
  rewrite getcol_Ok, bind_ret by done.
  destruct (decide (np_sum (column j A) ≠ 0)) as [Hs|Hs].
  - rewrite !bind_ret. unfold vdiv.
    rewrite decide_False, bind_ret by done.
    apply setcol_spec; [done..|].
    rewrite length_map, length_column. apply Hwf.
  - exists A. done.
Qed.

(** The loop normalises the first [k] columns of [abs(A_sep)], one after
    the other, and raises nothing. *)
Lemma normalise_spec (A_sep : ndarray R) (k : nat) :
  nd_wf A_sep → (k ≤ nd_cols A_sep)%nat →
  ∃ A, normalise A_sep k = Ok A ∧ nd_wf A ∧
       np_shape A = np_shape A_sep ∧
       ∀ c, column c A =
            if decide (c < k)%nat then normalised (column c (nd_abs A_sep))
            else column c (nd_abs A_sep).
Proof.
  intros Hwf Hk. unfold normalise.
  destruct (for_each_range_inv
    (λ j A, nd_wf A ∧ np_shape A = np_shape A_sep ∧
            ∀ c, column c A =
                 if decide (c < j)%nat
                 then normalised (column c (nd_abs A_sep))
                 else column c (nd_abs A_sep))
    normalise_column k (nd_abs A_sep)) as (A & HA & HP).
  - split_and!; [by apply nd_abs_wf | done |].
    intros c. rewrite decide_False by lia. done.
  - intros j A Hj (HwfA & Hsh & Hcols).
    assert (nd_cols A = nd_cols A_sep) as Hc by (by injection Hsh).
    destruct (normalise_column_spec A j) as (A' & -> & Hwf' & Hsh' & Hj' & Hne);
      [done | lia |].
    exists A'. split; [done|]. split_and!; [done | congruence |].
    intros c. destruct (decide (c = j)) as [->|Hcj].
    + rewrite decide_True by lia. rewrite Hj', Hcols.
      by rewrite decide_False by lia.
    + rewrite Hne, Hcols by done.
      destruct (decide (c < j)%nat), (decide (c < S j)%nat); try done; lia.
  - exists A. done.
Qed.

End normalisation.

Lemma normalised_sum (col : list R) :
  np_sum col ≠ 0 → np_sum (normalised col) = 1.
Proof.
  intros Hs. unfold normalised. rewrite decide_True by done.
  rewrite np_sum_div. by field.
Qed.

Lemma Forall_Rabs_nonneg (v : list R) : Forall (λ x, 0 <= x) (map Rabs v).
Proof. apply Forall_map, Forall_forall. intros x _. apply Rabs_pos. Qed.

(** ** Matching the components to the primary signal *)

Lemma known_method_cases (sep_method : string) :
  sep_method ∈ ["ica"; "nmf"; "nmf_sklearn"] →
  sep_method = "ica" ∨ sep_method = "nmf" ∨ sep_method = "nmf_sklearn".
Proof.
  rewrite !elem_of_cons, elem_of_nil. tauto.
Qed.

(** One pass of the matching loop writes the recentred, weighted component
    [order[j]] into column [j] and touches no other column. *)
Lemma match_component_spec (S S_sep A_sep S_matched : ndarray R)
    (sep_method : string) (order : list nat) (j oj : nat) (p row0 : list R) :
  sep_method ∈ ["ica"; "nmf"; "nmf_sklearn"] →
  nd_wf S_sep → nd_wf A_sep → nd_wf S_matched →
  np_shape S_matched = np_shape S_sep →
  nd_data S !! 0%nat = Some p →
  nd_data A_sep !! 0%nat = Some row0 →
  order !! j = Some oj →
  (oj < nd_cols A_sep)%nat → (oj < nd_cols S_sep)%nat →
  (j < nd_cols S_sep)%nat →
  ∃ M, match_component S sep_method S_sep A_sep order j S_matched = Ok M ∧
       nd_wf M ∧ np_shape M = np_shape S_sep ∧
       column j M =
         recentred sep_method (np_mean p)
           (vscale (nth oj row0 0) (column oj S_sep)) ∧
       ∀ c, c ≠ j → column c M = column c S_matched.
Proof.
  intros Hm HwS HwA HwM Hsh Hp Hrow0 Hoj HojA HojS Hj.
  assert (nd_rows S_matched = nd_rows S_sep ∧ nd_cols S_matched = nd_cols S_sep)
    as [Hrows Hcols] by (by injection Hsh).
  unfold match_component. rewrite Hoj, bind_ret.
  assert (getitem A_sep 0 oj = Ok (nth oj row0 0)) as ->.
  { unfold getitem, getrow. rewrite Hrow0, bind_ret.
    destruct (lookup_lt_is_Some_2 row0 oj) as [x Hx].
    - destruct HwA as [_ HwA].
      rewrite (Forall_lookup_1 _ _ _ _ HwA Hrow0). done.
    - rewrite Hx. by rewrite (nth_default_lookup _ _ _ Hx). }
  rewrite bind_ret, getcol_Ok, bind_ret by done.
  set (s_ := vscale (nth oj row0 0) (column oj S_sep)).
  assert (length s_ = nd_rows S_sep) as Hls.
  { unfold s_. rewrite length_vscale, length_column. apply HwS. }
  destruct (setcol_spec S_matched j s_) as (M1 & -> & Hw1 & Hsh1 & Hj1 & Hne1);
    [done | lia | lia |].
  rewrite bind_ret.
  assert (nd_rows M1 = nd_rows S_sep ∧ nd_cols M1 = nd_cols S_sep)
    as [Hrows1 Hcols1] by (split; injection Hsh1; lia).
  assert (getrow S 0 = Ok p) as Hgp by (unfold getrow; by rewrite Hp).
  unfold recentred.
  destruct (decide (sep_method = "ica")) as [Hica|Hica].
  - rewrite getcol_Ok, bind_ret, Hgp, bind_ret, Hj1 by lia.
    destruct (setcol_spec M1 j (vshift (np_mean p) s_))
      as (M2 & -> & Hw2 & Hsh2 & Hj2 & Hne2);
      [done | lia | rewrite length_vshift; lia |].
    exists M2. split_and!; [done | done | congruence | done |].
    intros c Hc. rewrite Hne2, Hne1 by done. done.
  - rewrite decide_True by (apply known_method_cases in Hm; tauto).
    rewrite getcol_Ok, !bind_ret, Hgp, !bind_ret, Hj1 by lia.
    destruct (setcol_spec M1 j (vshift (np_mean p - np_mean s_) s_))
      as (M2 & -> & Hw2 & Hsh2 & Hj2 & Hne2);
      [done | lia | rewrite length_vshift; lia |].
    exists M2. split_and!; [done | done | congruence | done |].
    intros c Hc. rewrite Hne2, Hne1 by done. done.
Qed.

Section matching.
Context `{LibrariesOk}.

Lemma order_length (scores : list R) :
  length (reverse (np_argsort scores)) = length scores.
Proof.
  rewrite length_reverse, (Permutation_length (argsort_perm scores)).
  apply length_seq.
Qed.

Lemma order_lookup (scores : list R) (j : nat) :
  (j < length scores)%nat →
  ∃ oj, reverse (np_argsort scores) !! j = Some oj ∧
        (oj < length scores)%nat.
Proof.
  intros Hj.
  destruct (lookup_lt_is_Some_2 (reverse (np_argsort scores)) j)
    as [oj Hoj]; [by rewrite order_length|].
  exists oj. split; [done|].
  apply list_elem_of_lookup_2 in Hoj. rewrite elem_of_reverse in Hoj.
  rewrite (argsort_perm scores), elem_of_seq in Hoj. lia.
Qed.


Lemma scores_of_spec (A_sep : ndarray R) (k : nat) :
  nd_wf A_sep → (0 < nd_rows A_sep)%nat → nd_cols A_sep = k →
  ∃ scores, scores_of A_sep k = Ok scores ∧ length scores = k.
Proof.
  intros Hwf Hr Hc. unfold scores_of.
  destruct (normalise_spec A_sep k) as (A & -> & HwA & Hsh & _); [done|lia|].
  rewrite bind_ret.
  destruct (getrow_Ok A 0) as (r & -> & _ & Hl); [done | |].
  - injection Hsh. lia.
  - exists r. split; [done|]. injection Hsh. lia.
Qed.

(** Lines 206-231 on well-shaped factors: [S_matched] gets, in column
    [j], the component [order[j]] scaled by its primary-row weight and
    recentred, where [order] ranks the components by descending score. *)
Lemma match_components_spec (S S_sep A_sep : ndarray R)
    (sep_method : string) (k : nat) :
  sep_method ∈ ["ica"; "nmf"; "nmf_sklearn"] →
  nd_wf S → (0 < nd_rows S)%nat →
  nd_wf S_sep → nd_cols S_sep = k →
  nd_wf A_sep → (0 < nd_rows A_sep)%nat → nd_cols A_sep = k →
  ∃ scores p row0 M,
    scores_of A_sep k = Ok scores ∧ length scores = k ∧
    nd_data S !! 0%nat = Some p ∧
    nd_data A_sep !! 0%nat = Some row0 ∧
    match_components S sep_method k S_sep A_sep = Ok M ∧
    nd_wf M ∧ np_shape M = np_shape S_sep ∧
    ∀ j, (j < k)%nat →
      ∃ oj, reverse (np_argsort scores) !! j = Some oj ∧ (oj < k)%nat ∧
            column j M =
              recentred sep_method (np_mean p)
                (vscale (nth oj row0 0) (column oj S_sep)).
Proof.
  intros Hm HwS HrS HwSep HcSep HwA HrA HcA.
  destruct (scores_of_spec A_sep k) as (scores & Hsc & Hlen); [done..|].
  destruct (getrow_Ok S 0) as (p & _ & Hp & _); [done..|].
  destruct (getrow_Ok A_sep 0) as (row0 & _ & Hrow0 & _); [done..|].
  exists scores, p, row0.
  pose proof Hsc as Hsc0.
  unfold match_components. unfold scores_of in Hsc.
  destruct (normalise A_sep k) as [A|e] eqn:HA; [|done].
  rewrite bind_ret. rewrite bind_ret in Hsc. rewrite Hsc, bind_ret.
  set (order := reverse (np_argsort scores)).
  set (target := λ (c oj : nat), recentred sep_method (np_mean p)
                           (vscale (nth oj row0 0) (column oj S_sep))).
  destruct (for_each_range_inv
    (λ j M, nd_wf M ∧ np_shape M = np_shape S_sep ∧
            ∀ c, (c < j)%nat →
              ∃ oj, order !! c = Some oj ∧ (oj < k)%nat ∧
                    column c M = target c oj)
    (match_component S sep_method S_sep A_sep order) k
    (np_zeros (np_shape S_sep))) as (M & HM & HwM & HshM & Hcols).
  - split_and!; [apply np_zeros_wf | done | intros c Hc; lia].
  - intros j M Hj (HwM & HshM & Hcols).
    destruct (order_lookup scores j) as (oj & Hoj & Hlt); [lia|].
    destruct (match_component_spec S S_sep A_sep M sep_method order j oj
                p row0) as (M' & -> & HwM' & HshM' & HjM' & Hne);
      [done..|lia|lia|lia|].
    exists M'. split; [done|]. split_and!; [done..|].
    intros c Hc. destruct (decide (c = j)) as [->|Hcj].
    + exists oj. split_and!; [done | lia | done].
    + destruct (Hcols c) as (oc & ? & ? & ?); [lia|].
      exists oc. rewrite Hne by done. done.
  - exists M. split_and!; done.
Qed.

End matching.

(** ** The retry loop *)

Lemma last_cons_default {A} (d : A) (ds : list A) (x y : A) :
  List.last (d :: ds) x = List.last (d :: ds) y.
Proof.
  revert d. induction ds as [|e ds IH]; intros d; [done|].
  change (List.last (e :: ds) x = List.last (e :: ds) y). apply IH.
Qed.

Section retrying.
Context `{Libraries}.

(** The loop over the tries [a, a+1, ..., a+n-1], the last of which is
    try [maxtries - 1], makes [m] attempts with [1 <= m <= n]: the first
    with the [random_state] it starts from, each later one with a fresh
    draw of [randint(8000)]; every attempt but the last failed to
    converge, and the last either converged or was the last try. *)
Lemma retry_loop_spec {F} (fit : Z → F) (converged : F → bool)
    (maxtries : Z) (n a : nat) (st : loop_state F) :
  Z.of_nat (a + n) = maxtries → (0 < n)%nat →
  let st' := retry_loop fit converged maxtries (map Z.of_nat (seq a n)) st in
  ∃ m, (1 ≤ m ≤ n)%nat ∧
    let ds := draws (m - 1) (ls_world st) in
    ls_seeds st' = ls_seeds st ++ ls_random_state st :: ds.1 ∧
    ls_world st' = ds.2 ∧
    ls_random_state st' = List.last ds.1 (ls_random_state st) ∧
    ls_model st' = Some (fit (ls_random_state st')) ∧
    Forall (λ s, converged (fit s) = false)
           (removelast (ls_random_state st :: ds.1)) ∧
    (converged (fit (ls_random_state st')) = true ∨ m = n).
Proof.
  revert a st. induction n as [|n IH]; intros a st Hmax Hn; [lia|].
  simpl. destruct (converged (fit (ls_random_state st))) eqn:Hconv.
  - exists 1%nat. simpl. split_and!; try done; try lia; by left.
  - destruct (decide (Z.of_nat a + 1 < maxtries)%Z) as [Hlt|Hge].
    + destruct (rand_randint 8000 (ls_world st)) as [r w1] eqn:Hr.
      set (st2 := mk_loop_state r w1 (Some (fit (ls_random_state st)))
                    (ls_seeds st ++ [ls_random_state st])).
      destruct (IH (S a) st2)
        as (m & Hm & Hseeds & Hworld & Hrs & Hmodel & Hfail & Hlast);
        [lia | lia |].
      set (st' := retry_loop fit converged maxtries _ st2) in *.
      exists (S m). split; [lia|].
      replace (S m - 1)%nat with (S (m - 1)) by lia.
      simpl draws. rewrite Hr.
      subst st2. simpl in Hseeds, Hworld, Hrs, Hfail.
      destruct (draws (m - 1) w1) as [ds w2] eqn:Hds.
      simpl in Hseeds, Hworld, Hrs, Hfail |- *.
      split_and!.
      * rewrite Hseeds. by rewrite <- app_assoc.
      * done.
      * rewrite Hrs. destruct ds; [done | apply last_cons_default].
      * done.
      * by constructor.
      * destruct Hlast as [?| ->]; [by left | by right].
    + assert (n = 0)%nat as -> by lia. simpl.
      exists 1%nat. simpl. split_and!; try done; try lia; by right.
Qed.

Lemma retry_loop_converged {F} (fit : Z → F) (converged : F → bool)
    (maxtries ith_try : Z) (rest : list Z) (st : loop_state F) :
  converged (fit (ls_random_state st)) = true →
  retry_loop fit converged maxtries (ith_try :: rest) st =
  mk_loop_state (ls_random_state st) (ls_world st)
    (Some (fit (ls_random_state st))) (ls_seeds st ++ [ls_random_state st]).
Proof. intros Hconv. simpl. by rewrite Hconv. Qed.

Lemma retry_loop_reseed {F} (fit : Z → F) (converged : F → bool)
    (maxtries ith_try : Z) (rest : list Z) (st : loop_state F) :
  converged (fit (ls_random_state st)) = false →
  (ith_try + 1 < maxtries)%Z →
  retry_loop fit converged maxtries (ith_try :: rest) st =
  retry_loop fit converged maxtries rest
    (mk_loop_state (rand_randint 8000 (ls_world st)).1
       (rand_randint 8000 (ls_world st)).2
       (Some (fit (ls_random_state st)))
       (ls_seeds st ++ [ls_random_state st])).
Proof.
  intros Hconv Hlt. simpl. rewrite Hconv, decide_True by done.
  by destruct (rand_randint 8000 (ls_world st)).
Qed.

Lemma retry_loop_nil {F} (fit : Z → F) (converged : F → bool)
    (maxtries : Z) (st : loop_state F) :
  (maxtries ≤ 0)%Z →
  retry_loop fit converged maxtries (py_range maxtries) st = st.
Proof.
  intros Hm. unfold py_range.
  replace (Z.to_nat maxtries) with 0%nat by lia. done.
Qed.

End retrying.

Section retry_policies.
Context `{Libraries}.

Lemma length_draws (n : nat) (w : world) : length (draws n w).1 = n.
Proof.
  revert w. induction n as [|n IH]; intros w; [done|].
  simpl. destruct (rand_randint 8000 w) as [r w1].
  specialize (IH w1). destruct (draws n w1). simpl in *. lia.
Qed.

(** A retry loop run over [range(maxtries)] from an empty history
    follows the retry policy, when [maxtries] is positive. *)
Lemma retry_loop_policy {F} (fit : Z → F) (converged : F → bool)
    (random_state maxtries : Z) (w : world) :
  (0 < maxtries)%Z →
  ∃ m, retry_policy fit converged random_state maxtries w
         (retry_loop fit converged maxtries (py_range maxtries)
            (mk_loop_state random_state w None [])) m.
Proof.
  intros Hpos. unfold py_range.
  destruct (retry_loop_spec fit converged maxtries (Z.to_nat maxtries) 0
              (mk_loop_state random_state w None []))
    as (m & Hm & Hseeds & Hworld & Hrs & Hmodel & Hfail & Hlast);
    [lia | lia |].
  simpl in Hseeds, Hworld, Hrs, Hfail.
  exists m. unfold retry_policy. rewrite Hseeds.
  split_and!; try done; try lia.
  - rewrite length_cons, length_draws. lia.
  - rewrite Hrs. by destruct (draws (m - 1) w).1.
Qed.

End retry_policies.

(** ** The whole of [separate] *)

Section separation.
Context `{LibrariesOk}.

Lemma valid_traces_data (S : ndarray R) (k : nat) :
  valid_traces S k → valid_data (transpose S) k.
Proof.
  intros (Hwf & Hk & Hr & Hc). split_and!; simpl; try done.
  by apply transpose_wf.
Qed.

Lemma factorise_ica_spec (S : ndarray R) (k : nat) (maxiter : Z) (tol : R)
    (random_state maxtries : Z) (w : world) :
  (0 < maxtries)%Z →
  let fit := λ rs, FastICA_fit k maxiter tol rs (transpose S) in
  let st := ica_attempts S k maxiter tol random_state maxtries w in
  let ica := fit (ls_random_state st) in
  (∃ m, retry_policy fit (λ ica, bool_decide (ica_n_iter_ ica < maxiter)%Z)
          random_state maxtries w st m) ∧
  factorise_ica S k maxiter tol random_state maxtries w =
    (Ok (mk_factorised (ica_fit_transform ica) (ica_mixing_ ica)
           (ls_random_state st) (ica_n_iter_ ica)),
     ls_world st).
Proof.
  intros Hpos fit st ica.
  assert (∃ m, retry_policy fit
                 (λ ica, bool_decide (ica_n_iter_ ica < maxiter)%Z)
                 random_state maxtries w st m) as (m & Hpol)
    by (by apply retry_loop_policy).
  split; [by exists m|].
  unfold factorise_ica. fold st.
  destruct Hpol as (_ & _ & _ & _ & _ & -> & _). done.
Qed.

Lemma factorise_nmf_sklearn_spec (S : ndarray R) (k : nat) (maxiter : Z)
    (tol : R) (random_state maxtries : Z) (w : world) :
  (0 < maxtries)%Z →
  let fit := λ rs, NMF_fit maxiter k tol rs (transpose S) in
  let st := nmf_sklearn_attempts S k maxiter tol random_state maxtries w in
  let nmf := fit (ls_random_state st) in
  (∃ m, retry_policy fit
          (λ nmf, bool_decide (nmf_n_iter_ nmf < maxiter - 1)%Z)
          random_state maxtries w st m) ∧
  factorise_nmf_sklearn S k maxiter tol random_state maxtries w =
    (Ok (mk_factorised (nmf_fit_transform nmf)
           (transpose (nmf_components_ nmf))
           (ls_random_state st) (nmf_n_iter_ nmf)),
     ls_world st).
Proof.
  intros Hpos fit st nmf.
  assert (∃ m, retry_policy fit
                 (λ nmf, bool_decide (nmf_n_iter_ nmf < maxiter - 1)%Z)
                 random_state maxtries w st m) as (m & Hpol)
    by (by apply retry_loop_policy).
  split; [by exists m|].
  unfold factorise_nmf_sklearn. fold st.
  destruct Hpol as (_ & _ & _ & _ & _ & -> & _). done.
Qed.

(** The factors every method hands to the matching step: [S_sep] with a
    row per sample and a column per component, [A_sep] with a row per
    region and a column per component. *)
Lemma factorise_shapes (S : ndarray R) (sep_method : string) (k : nat)
    (maxiter : Z) (tol : R) (random_state maxtries : Z) (w : world) :
  sep_method ∈ ["ica"; "nmf"; "nmf_sklearn"] →
  valid_traces S k →
  (sep_method ≠ "nmf" → (0 < maxtries)%Z) →
  ∃ f w',
    factorise S sep_method (NInt k) maxiter tol random_state maxtries w =
      (Ok f, w') ∧
    nd_wf (f_S_sep f) ∧ np_shape (f_S_sep f) = (nd_cols S, k) ∧
    nd_wf (f_A_sep f) ∧ np_shape (f_A_sep f) = (nd_rows S, k).
Proof.
  intros Hm Hvalid Hpos. pose proof (valid_traces_data S k Hvalid) as HX.
  unfold factorise.
  apply known_method_cases in Hm as [-> | [-> | ->]]; simpl.
  - destruct (factorise_ica_spec S k maxiter tol random_state maxtries w)
      as [_ ->]; [by apply Hpos|].
    eexists _, _. split; [done|]. simpl.
    by destruct (FastICA_shape k maxiter tol
                (ls_random_state
                   (ica_attempts S k maxiter tol random_state maxtries w))
                (transpose S) HX) as (? & ? & ? & ?).
  - unfold factorise_nmf.
    destruct (nimfa_Nmf (transpose S) maxiter k w) as [fit w'] eqn:Hfit.
    eexists _, _. split; [done|]. simpl.
    destruct (nimfa_shape k maxiter (transpose S) w HX) as (? & ? & ? & Hc).
    rewrite Hfit in *. simpl in *.
    split_and!; [done | done | by apply transpose_wf |].
    rewrite transpose_shape. by injection Hc as -> ->.
  - destruct (factorise_nmf_sklearn_spec S k maxiter tol random_state
                maxtries w) as [_ ->]; [by apply Hpos|].
    eexists _, _. split; [done|]. simpl.
    destruct (NMF_shape k maxiter tol
                (ls_random_state
                   (nmf_sklearn_attempts S k maxiter tol random_state
                      maxtries w))
                (transpose S) HX) as (? & ? & ? & Hc).
    split_and!; [done | done | by apply transpose_wf |].
    rewrite transpose_shape. by injection Hc as -> ->.
Qed.

(** [separate] returns on every problem the libraries accept, with the
    factors of [factorise] and the matched traces of [match_components],
    both transposed. *)
Lemma separate_spec (S : ndarray R) (sep_method : string)
    (n_components : n_components_arg) (k : nat) (maxiter : Z) (tol : R)
    (random_state maxtries : Z) (w : world) :
  sep_method ∈ ["ica"; "nmf"; "nmf_sklearn"] →
  infer_n_components S n_components = NInt k →
  valid_traces S k →
  (sep_method ≠ "nmf" → (0 < maxtries)%Z) →
  ∃ f w' M,
    factorise S sep_method (NInt k) maxiter tol random_state maxtries w =
      (Ok f, w') ∧
    nd_wf (f_S_sep f) ∧ np_shape (f_S_sep f) = (nd_cols S, k) ∧
    nd_wf (f_A_sep f) ∧ np_shape (f_A_sep f) = (nd_rows S, k) ∧
    match_components S sep_method k (f_S_sep f) (f_A_sep f) = Ok M ∧
    nd_wf M ∧ np_shape M = (nd_cols S, k) ∧
    separate S sep_method n_components maxiter tol random_state maxtries w =
      (Ok (mk_separated (transpose (f_S_sep f)) (transpose M) (f_A_sep f)
             (convergence_info sep_method maxiter f)),
       w').
Proof.
  intros Hm Hk Hvalid Hpos.
  destruct (factorise_shapes S sep_method k maxiter tol random_state
              maxtries w) as (f & w' & Hf & HwS & HsS & HwA & HsA);
    [done..|].
  destruct Hvalid as (HwfS & Hk0 & HkR & HkC).
  destruct (match_components_spec S (f_S_sep f) (f_A_sep f) sep_method k)
    as (scores & p & row0 & M & _ & _ & _ & _ & HM & HwM & HsM & _);
    [done | done | lia | done | by injection HsS | done
    | injection HsA; lia | by injection HsA |].
  exists f, w', M. split_and!; [done.. | congruence |].
  unfold separate. rewrite Hk, Hf. simpl. by rewrite HM.
Qed.

End separation.

(** ** The stand-in libraries keep the contracts *)

Section example_contracts.
Import example_libraries.

Lemma scaled_primary_wf (k : nat) (X : ndarray R) :
  nd_wf X → nd_wf (scaled_primary k X).
Proof.
  intros [Hl Hr]. split; simpl; [by rewrite length_map|].
  apply Forall_map, Forall_forall. intros r _. simpl.
  by rewrite length_map, length_seq.
Qed.

Lemma sample_weights_wf (k : nat) (X : ndarray R) :
  nd_wf (sample_weights k X).
Proof.
  split; simpl; [by rewrite length_map, length_seq|].
  apply Forall_map, Forall_forall. intros i _. simpl.
  by rewrite length_map, length_seq.
Qed.

Lemma iterations_le (maxiter : Z) (tol : R) (seed : Z) :
  (iterations maxiter tol seed ≤ maxiter)%Z.
Proof.
  unfold iterations. destruct (decide (tol <= 0)); [lia|].
  destruct (Z.even seed); lia.
Qed.

Lemma insert_index_perm (v : list R) (i : nat) (l : list nat) :
  insert_index v i l ≡ₚ i :: l.
Proof.
  induction l as [|j l IH]; simpl; [done|].
  destruct (decide (nth i v 0 < nth j v 0)); [done|].
  rewrite IH. apply Permutation_swap.
Qed.

Lemma foldl_insert_index_perm (v : list R) (idx l : list nat) :
  foldl (λ sorted i, insert_index v i sorted) l idx ≡ₚ idx ++ l.
Proof.
  revert l. induction idx as [|i idx IH]; intros l; simpl; [done|].
  rewrite IH, insert_index_perm. by rewrite Permutation_middle.
Qed.

Lemma example_argsort_perm (v : list R) : argsort v ≡ₚ seq 0 (length v).
Proof.
  unfold argsort. rewrite foldl_insert_index_perm. by rewrite app_nil_r.
Qed.

Lemma insert_index_sorted (v : list R) (i : nat) (l : list nat) :
  StronglySorted (by_value v) l →
  StronglySorted (by_value v) (insert_index v i l).
Proof.
  induction 1 as [|j l Hl IH Hj]; simpl.
  - repeat constructor.
  - destruct (decide (nth i v 0 < nth j v 0)) as [Hlt|Hge].
    + constructor; [by constructor|].
      constructor; [unfold by_value; lra|].
      eapply Forall_impl; [exact Hj|]. unfold by_value. intros b ?. lra.
    + constructor; [done|].
      rewrite insert_index_perm. constructor; [|done].
      unfold by_value. lra.
Qed.

Lemma example_argsort_strongly_sorted (v : list R) :
  StronglySorted (by_value v) (argsort v).
Proof.
  unfold argsort.
  assert (∀ idx l, StronglySorted (by_value v) l →
            StronglySorted (by_value v)
              (foldl (λ sorted i, insert_index v i sorted) l idx)) as Hfold.
  { induction idx as [|i idx IH]; intros l Hl; simpl; [done|].
    apply IH. by apply insert_index_sorted. }
  apply Hfold. constructor.
Qed.

Lemma strongly_sorted_lookup (v : list R) (l : list nat) (i j a b : nat) :
  StronglySorted (by_value v) l → (i ≤ j)%nat →
  l !! i = Some a → l !! j = Some b → nth a v 0 <= nth b v 0.
Proof.
  intros Hs. revert i j. induction Hs as [|x l Hl IH Hx]; intros i j Hij Ha Hb.
  - done.
  - destruct i as [|i], j as [|j]; simpl in *; try lia.
    + injection Ha as <-. injection Hb as <-. lra.
    + injection Ha as <-.
      apply (Forall_lookup_1 _ _ _ _ Hx Hb).
    + apply (IH i j); [lia | done..].
Qed.

Lemma grid_minimize_bounded (f : R → R) (lo hi : R) :
  lo <= hi → ∃ x, grid_minimize f (lo, hi) = Ok x ∧ lo <= x <= hi.
Proof.
  intros Hle. unfold grid_minimize. rewrite decide_False by lra.
  eexists. split; [done|].
  destruct (decide (f ((lo + hi) / 2) < f lo));
    match goal with |- context [decide ?P] => destruct (decide P) end; lra.
Qed.

#[export] Instance libraries_ok : LibrariesOk.
Proof.
  split.
  - intros k maxiter tol rs X (Hwf & Hk & Hc & Hr). simpl.
    split_and!; [by apply scaled_primary_wf | done | apply sample_weights_wf | done].
  - intros. apply iterations_le.
  - intros k maxiter tol rs X (Hwf & Hk & Hc & Hr). simpl.
    split_and!; [by apply scaled_primary_wf | done
                | apply transpose_wf, sample_weights_wf | done].
  - intros k maxiter X w (Hwf & Hk & Hc & Hr). simpl.
    split_and!; [by apply scaled_primary_wf | done
                | apply transpose_wf, sample_weights_wf | done].
  - intros k maxiter X w. simpl. destruct (Nat.even w.2); lia.
  - apply example_argsort_perm.
  - intros v i j a b. apply strongly_sorted_lookup.
    apply example_argsort_strongly_sorted.
  - apply grid_minimize_bounded.
Qed.

End example_contracts.

(** * The properties of the specification *)

(** ** C7: normalisation of the mixing weights *)

Lemma normalise_column_no_zero_division (j : nat) (A : ndarray R) :
  normalise_column j A ≠ Raise FloatingPointError.
Proof.
  unfold normalise_column, getcol, setcol, vdiv.
  destruct (decide (j < nd_cols A)%nat); [|done].
  rewrite !bind_ret.
  destruct (decide (np_sum (column j A) ≠ 0)) as [Hs|Hs]; [|done].
  rewrite decide_False, bind_ret by done.
  by repeat case_decide.
Qed.

Lemma normalise_loop_no_zero_division (js : list nat) (A : ndarray R) :
  for_each js normalise_column A ≠ Raise FloatingPointError.
Proof.
  revert A. induction js as [|j js IH]; intros A; simpl; [done|].
  pose proof (normalise_column_no_zero_division j A).
  destruct (normalise_column j A) as [A'|[]]; simpl; [apply IH | done..].
Qed.

(** C7. In the component-matching step of [separate], the division of a
    column of the absolute mixing matrix by its sum is never a division by
    zero, whatever the mixing matrix; on a well-shaped matrix the loop
    returns, every column among the first [n_components] whose sum is
    nonzero is divided by that sum and then sums to 1, and a column whose
    sum is zero is left as it is, all zeros. *)
Theorem normalise_guards_zero_sum (A_sep : ndarray R) (n_components : nat) :
  normalise A_sep n_components ≠ Raise FloatingPointError ∧
  (nd_wf A_sep → (n_components ≤ nd_cols A_sep)%nat →
   ∃ A, normalise A_sep n_components = Ok A ∧
     ∀ j, (j < n_components)%nat →
       let col := column j (nd_abs A_sep) in
       (np_sum col ≠ 0 →
        column j A = map (λ x, x / np_sum col) col ∧
        np_sum (column j A) = 1) ∧
       (np_sum col = 0 →
        column j A = col ∧ Forall (λ x, x = 0) (column j A))).
Proof.
  split; [apply normalise_loop_no_zero_division|].
  intros Hwf Hk.
  destruct (normalise_spec A_sep n_components Hwf Hk)
    as (A & HA & _ & _ & Hcols).
  exists A. split; [done|]. intros j Hj col.
  rewrite Hcols, decide_True by done. fold col. split.
  - intros Hs. split; [unfold normalised; by rewrite decide_True|].
    by apply normalised_sum.
  - intros Hs. unfold normalised. rewrite decide_False by tauto.
    split; [done|]. apply np_sum_zero_all_zero; [|done].
    unfold col. rewrite column_nd_abs. apply Forall_Rabs_nonneg.
Qed.

(** The theorem at a mixing matrix whose first column is all zero. *)
Lemma normalise_guards_zero_sum_witness :
  let A_sep := mk_ndarray 2 2 [[0; -3]; [0; 1]] in
  nd_wf A_sep ∧ (2 ≤ nd_cols A_sep)%nat ∧
  ∃ A, normalise A_sep 2 = Ok A ∧
    ∀ j, (j < 2)%nat →
      let col := column j (nd_abs A_sep) in
      (np_sum col ≠ 0 →
       column j A = map (λ x, x / np_sum col) col ∧
       np_sum (column j A) = 1) ∧
      (np_sum col = 0 →
       column j A = col ∧ Forall (λ x, x = 0) (column j A)).
Proof.
  intros A_sep.
  assert (nd_wf A_sep) as Hwf by (split; [done | by repeat constructor]).
  split; [exact Hwf|]. split; [simpl; lia|].
  apply (normalise_guards_zero_sum A_sep 2); [exact Hwf | simpl; lia].
Defined.

(** ** C2: the shapes of what [separate] returns *)

(** C2. For every well-formed trace matrix [S] (one region vector per
    row, at least two of them), each of the three separation methods and a
    component count [k] the libraries accept, [separate] returns; [S_sep]
    and [S_matched] have the shape of [S] restricted to its first [k]
    region vectors, that is [k] traces as long as those of [S]; and
    [A_sep] has one row per region of [S]. *)
Theorem separate_shapes `{LibrariesOk} (S : ndarray R) (sep_method : string)
    (n_components : n_components_arg) (k : nat) (maxiter : Z) (tol : R)
    (random_state maxtries : Z) (w : world) :
  sep_method ∈ ["ica"; "nmf"; "nmf_sklearn"] →
  infer_n_components S n_components = NInt k →
  valid_traces S k →
  (2 ≤ nd_rows S)%nat →
  (sep_method ≠ "nmf" → (0 < maxtries)%Z) →
  ∃ out w',
    separate S sep_method n_components maxiter tol random_state maxtries w =
      (Ok out, w') ∧
    nd_wf (out_S_sep out) ∧
    np_shape (out_S_sep out) = np_shape (first_signals k S) ∧
    nd_wf (out_S_matched out) ∧
    np_shape (out_S_matched out) = np_shape (first_signals k S) ∧
    np_shape (first_signals k S) = (k, nd_cols S) ∧
    nd_wf (out_A_sep out) ∧
    nd_rows (out_A_sep out) = nd_rows S ∧
    nd_cols (out_A_sep out) = k.
Proof.
  intros Hm Hk Hvalid _ Hpos.
  destruct (separate_spec S sep_method n_components k maxiter tol random_state
              maxtries w)
    as (f & w' & M & _ & HwS & HsS & HwA & HsA & _ & HwM & HsM & Hsep);
    [done..|].
  eexists _, w'. split; [exact Hsep|]. simpl.
  destruct Hvalid as (_ & _ & HkR & _).
  assert (np_shape (first_signals k S) = (k, nd_cols S)) as Hfirst.
  { unfold np_shape, first_signals. simpl. f_equal. lia. }
  rewrite Hfirst, !transpose_shape.
  injection HsS as HrS HcS. injection HsM as HrM HcM.
  injection HsA as HrA HcA.
  split_and!; try done; try (by apply transpose_wf); by f_equal.
Qed.

Section worked_examples_shapes.
Import example_libraries.

(** The theorem at a trace matrix of two regions and three frames. *)
Lemma separate_shapes_witness :
  let S := mk_ndarray 2 3 [[1; 3; 2]; [5; 7; 6]] in
  "ica" ∈ ["ica"; "nmf"; "nmf_sklearn"] ∧
  infer_n_components S (NInt 2) = NInt 2 ∧
  valid_traces S 2 ∧
  (2 ≤ nd_rows S)%nat ∧
  ("ica" ≠ "nmf" → (0 < 10)%Z) ∧
  ∃ out w',
    separate S "ica" (NInt 2) 500 1 892 10 fresh_world = (Ok out, w') ∧
    nd_wf (out_S_sep out) ∧
    np_shape (out_S_sep out) = np_shape (first_signals 2 S) ∧
    nd_wf (out_S_matched out) ∧
    np_shape (out_S_matched out) = np_shape (first_signals 2 S) ∧
    np_shape (first_signals 2 S) = (2%nat, nd_cols S) ∧
    nd_wf (out_A_sep out) ∧
    nd_rows (out_A_sep out) = nd_rows S ∧
    nd_cols (out_A_sep out) = 2%nat.
Proof.
  intros S.
  assert (valid_traces S 2) as Hvalid.
  { split_and!; simpl; try lia. split; [done | by repeat constructor]. }
  assert ("ica" ∈ ["ica"; "nmf"; "nmf_sklearn"]) as Hm by (by left).
  split_and!; [exact Hm | reflexivity | exact Hvalid | simpl; lia | lia |].
  apply (separate_shapes S "ica" (NInt 2) 2 500 1 892 10 fresh_world);
    [exact Hm | reflexivity | exact Hvalid | simpl; lia | lia].
Defined.

End worked_examples_shapes.

(** ** C1: how a matched trace is built *)




Section worked_examples_matching.
Import example_libraries.




End worked_examples_matching.

(** ** C3: retrying a factorisation that did not converge *)

Section convergence.
Context `{LibrariesOk}.

(** Method 'ica': the attempts follow the retry policy, [separate]
    returns, and the convergence dictionary reports the last attempt. *)
Lemma separate_ica_convergence (S : ndarray R) (k : nat) (maxiter : Z)
    (tol : R) (random_state maxtries : Z) (w : world) :
  valid_traces S k → (0 < maxtries)%Z →
  let fit := λ rs, FastICA_fit k maxiter tol rs (transpose S) in
  let converged := λ ica, bool_decide (ica_n_iter_ ica < maxiter)%Z in
  let st := ica_attempts S k maxiter tol random_state maxtries w in
  let last := fit (ls_random_state st) in
  ∃ m out,
    retry_policy fit converged random_state maxtries w st m ∧
    separate S "ica" (NInt k) maxiter tol random_state maxtries w =
      (Ok out, ls_world st) ∧
    out_convergence out !! "max_iterations" = Some (PInt maxiter) ∧
    out_convergence out !! "random_state" =
      Some (PInt (ls_random_state st)) ∧
    out_convergence out !! "iterations" = Some (PInt (ica_n_iter_ last)) ∧
    out_convergence out !! "converged" = Some (PBool (converged last)).
Proof.
  intros Hvalid Hpos fit converged st last.
  destruct (factorise_ica_spec S k maxiter tol random_state maxtries w Hpos)
    as [[m Hpol] Hfac].
  destruct (separate_spec S "ica" (NInt k) k maxiter tol random_state
              maxtries w)
    as (f & w' & M & Hf & _ & _ & _ & _ & _ & _ & _ & Hsep);
    [by left | reflexivity | exact Hvalid | intros _; exact Hpos |].
  unfold factorise in Hf. simpl in Hf. rewrite Hfac in Hf.
  injection Hf as <- <-.
  eexists m, _. split; [exact Hpol|]. split; [exact Hsep|].
  simpl. unfold convergence_info. simpl.
  split_and!; try done.
  rewrite lookup_insert_eq. do 2 f_equal.
  pose proof (FastICA_n_iter k maxiter tol (ls_random_state st) (transpose S)).
  unfold converged, last, fit, st in *.
  repeat case_bool_decide; simpl; try done; lia.
Qed.

(** Method 'nmf_sklearn': the same loop, with an attempt counted as
    converged when [n_iter_ + 1 < maxiter]; the convergence dictionary
    holds placeholders. *)
Lemma separate_nmf_sklearn_convergence (S : ndarray R) (k : nat)
    (maxiter : Z) (tol : R) (random_state maxtries : Z) (w : world) :
  valid_traces S k → (0 < maxtries)%Z →
  let fit := λ rs, NMF_fit maxiter k tol rs (transpose S) in
  let converged := λ nmf, bool_decide (nmf_n_iter_ nmf < maxiter - 1)%Z in
  let st := nmf_sklearn_attempts S k maxiter tol random_state maxtries w in
  ∃ m out,
    retry_policy fit converged random_state maxtries w st m ∧
    separate S "nmf_sklearn" (NInt k) maxiter tol random_state maxtries w =
      (Ok out, ls_world st) ∧
    out_convergence out !! "max_iterations" = Some (PInt maxiter) ∧
    out_convergence out !! "random_state" =
      Some (PStr "not yet implemented") ∧
    out_convergence out !! "iterations" = Some (PStr "not yet implemented") ∧
    out_convergence out !! "converged" = Some (PStr "not yet implemented").
Proof.
  intros Hvalid Hpos fit converged st.
  destruct (factorise_nmf_sklearn_spec S k maxiter tol random_state maxtries
              w Hpos) as [[m Hpol] Hfac].
  destruct (separate_spec S "nmf_sklearn" (NInt k) k maxiter tol random_state
              maxtries w)
    as (f & w' & M & Hf & _ & _ & _ & _ & _ & _ & _ & Hsep);
    [right; right; by left | reflexivity | exact Hvalid
    | intros _; exact Hpos |].
  unfold factorise in Hf. simpl in Hf. rewrite Hfac in Hf.
  injection Hf as <- <-.
  eexists m, _. split; [exact Hpol|]. split; [exact Hsep|].
  simpl. unfold convergence_info. simpl. done.
Qed.

(** Method 'nmf': one nimfa fit, whatever [maxtries] is, and no draw of a
    new random state. *)
Lemma separate_nmf_convergence (S : ndarray R) (k : nat) (maxiter : Z)
    (tol : R) (random_state maxtries : Z) (w : world) :
  valid_traces S k →
  let fit := nimfa_Nmf (transpose S) maxiter k w in
  ∃ out,
    separate S "nmf" (NInt k) maxiter tol random_state maxtries w =
      (Ok out, fit.2) ∧
    out_convergence out !! "max_iterations" = Some (PInt maxiter) ∧
    out_convergence out !! "random_state" =
      Some (PStr "not yet implemented") ∧
    out_convergence out !! "iterations" = Some (PInt (fit_n_iter fit.1)) ∧
    out_convergence out !! "converged" =
      Some (PBool (bool_decide (fit_n_iter fit.1 < maxiter)%Z)).
Proof.
  intros Hvalid fit.
  destruct (separate_spec S "nmf" (NInt k) k maxiter tol random_state
              maxtries w)
    as (f & w' & M & Hf & _ & _ & _ & _ & _ & _ & _ & Hsep);
    [right; by left | reflexivity | exact Hvalid | done |].
  unfold factorise, factorise_nmf in Hf. simpl in Hf.
  pose proof (nimfa_n_iter k maxiter (transpose S) w) as Hn.
  fold fit in Hf, Hn. destruct fit as [nmf_fit w''] eqn:Hfit.
  injection Hf as <- <-.
  eexists. split; [exact Hsep|].
  simpl. unfold convergence_info. simpl.
  split_and!; try done.
  rewrite lookup_insert_eq. do 2 f_equal. simpl in Hn.
  repeat case_bool_decide; simpl; try done; lia.
Qed.

End convergence.



(** With [maxtries <= 0] the loop of method 'ica' is not entered, and
    reading [ica.n_iter_] after it fails: [UnboundLocalError]. *)
Lemma separate_ica_no_tries `{neuropil.Libraries} (S : ndarray R) (k : nat)
    (maxiter : Z) (tol : R) (random_state maxtries : Z) (w : world) :
  (maxtries ≤ 0)%Z →
  separate S "ica" (NInt k) maxiter tol random_state maxtries w =
    (Raise UnboundLocalError, w).
Proof.
  intros Hle. unfold separate, factorise, factorise_ica, ica_attempts. simpl.
  by rewrite retry_loop_nil.
Qed.


Section worked_examples_retry.
Import example_libraries.


Lemma iterations_even_seed (maxiter : Z) (tol : R) (seed : Z) :
  Z.even seed = true → iterations maxiter tol seed = maxiter.
Proof.
  intros Heven. unfold iterations. rewrite Heven. by destruct (decide (tol <= 0)).
Qed.

Lemma iterations_odd_seed (maxiter : Z) (tol : R) (seed : Z) :
  0 < tol → Z.even seed = false →
  iterations maxiter tol seed = Z.min maxiter 1.
Proof.
  intros Htol Hodd. unfold iterations. rewrite Hodd.
  by rewrite decide_False by lra.
Qed.

(** A run of the loop: the first attempt, with seed 892, uses up the 500
    iterations; the state is reseeded with the draw 1, and the second
    attempt converges after one iteration. *)
Example ica_attempts_reseed_once :
  let S := mk_ndarray 2 2 [[2; 4]; [5; 7]] in
  ica_attempts S 1 500 1 892 10 fresh_world =
  mk_loop_state 1 (1, 0)%nat (Some (FastICA_fit 1 500 1 1 (transpose S)))
    [892; 1]%Z ∧
  ica_n_iter_ (FastICA_fit 1 500 1 892 (transpose S)) = 500%Z ∧
  ica_n_iter_ (FastICA_fit 1 500 1 1 (transpose S)) = 1%Z.
Proof.
  intros S.
  assert (ica_n_iter_ (FastICA_fit 1 500 1 892 (transpose S)) = 500%Z)
    as Hfirst by (apply iterations_even_seed; reflexivity).
  assert (ica_n_iter_ (FastICA_fit 1 500 1 1 (transpose S)) = 1%Z)
    as Hsecond by (apply iterations_odd_seed; [lra | reflexivity]).
  split; [|done]. unfold ica_attempts.
  replace (py_range 10) with [0; 1; 2; 3; 4; 5; 6; 7; 8; 9]%Z by reflexivity.
  rewrite retry_loop_reseed;
    [| apply bool_decide_eq_false_2; cbn [ls_random_state]; rewrite Hfirst; lia
     | lia].
  cbn [ls_random_state ls_world ls_seeds].
  change (rand_randint 8000 fresh_world) with (1%Z, (1, 0)%nat).
  cbn [fst snd app].
  rewrite retry_loop_converged;
    [| apply bool_decide_eq_true_2; cbn [ls_random_state]; rewrite Hsecond;
       lia].
  reflexivity.
Qed.



End worked_examples_retry.

(** ** C4: neuropil subtraction with a bounded gain *)

Lemma sqrt_square_abs (x : R) : sqrt (x ^ 2) = Rabs x.
Proof. rewrite <- Rsqr_pow2. apply sqrt_Rsqr_abs. Qed.

(** Subtracting [a * pil] and adding back its mean keeps the mean. *)
Lemma np_mean_corrected (sig pil : list R) (a : R) :
  length sig = length pil →
  np_mean (vshift (np_mean (vscale a pil)) (vsub sig (vscale a pil))) =
  np_mean sig.
Proof.
  intros Hlen. destruct sig as [|x sig].
  - destruct pil; [|done]. reflexivity.
  - assert (length (vscale a pil) = length (x :: sig)) as Hl
      by (by rewrite length_vscale).
    rewrite np_mean_vshift.
    + unfold np_mean. rewrite np_sum_vsub, length_vsub, Hl by done.
      assert (INR (length (x :: sig)) ≠ 0) by (apply not_0_INR; done).
      by field.
    + intros Hnil. apply (f_equal length) in Hnil.
      rewrite length_vsub in Hnil by done. done.
Qed.

Section subtraction.
Context `{LibrariesOk}.

(** [subtract_pil] on vectors of one length and ordered bounds: what it
    returns, and where the gain comes from. *)
Lemma subtract_pil_Ok (sig pil : list R) (lower_bound upper_bound : R) :
  length sig = length pil → lower_bound <= upper_bound →
  ∃ a,
    minimize_scalar (mincorr sig pil) (lower_bound, upper_bound) = Ok a ∧
    lower_bound <= a <= upper_bound ∧
    subtract_pil sig pil lower_bound upper_bound =
      Ok (vshift (np_mean (vscale a pil)) (vsub sig (vscale a pil)), a).
Proof.
  intros Hlen Hle.
  destruct (minimize_scalar_bounded (mincorr sig pil) lower_bound upper_bound
              Hle) as (a & Ha & Hbounds).
  exists a. split_and!; [done | apply Hbounds | apply Hbounds |].
  unfold subtract_pil. rewrite decide_True by done. by rewrite Ha.
Qed.

(** C4. For vectors [sig] and [pil] of one length and bounds
    [lower_bound <= upper_bound], [subtract_pil] returns
    [(sig_corrected, a)]: the gain [a] is what the bounded scalar
    minimiser returns for the objective [mincorr], which is the absolute
    value of the correlation coefficient between [sig - x*pil] and [pil];
    [a] lies within the bounds; [sig_corrected] is
    [sig - a*pil + mean(a*pil)]; and its mean is the mean of [sig]. *)
Theorem subtract_pil_bounded_gain (sig pil : list R)
    (lower_bound upper_bound : R) :
  length sig = length pil → lower_bound <= upper_bound →
  ∃ sig_corrected a,
    subtract_pil sig pil lower_bound upper_bound = Ok (sig_corrected, a) ∧
    lower_bound <= a <= upper_bound ∧
    minimize_scalar (mincorr sig pil) (lower_bound, upper_bound) = Ok a ∧
    (∀ x, mincorr sig pil x =
          Rabs (np_corrcoef (vsub sig (vscale x pil)) pil)) ∧
    sig_corrected =
      vshift (np_mean (vscale a pil)) (vsub sig (vscale a pil)) ∧
    np_mean sig_corrected = np_mean sig.
Proof.
  intros Hlen Hle.
  destruct (subtract_pil_Ok sig pil lower_bound upper_bound Hlen Hle)
    as (a & Hmin & Hbounds & Hsub).
  eexists _, a. split; [exact Hsub|].
  split; [exact Hbounds|]. split; [exact Hmin|]. split.
  - intros x. unfold mincorr. apply sqrt_square_abs.
  - split; [done|]. by apply np_mean_corrected.
Qed.

End subtraction.

Section worked_examples_subtraction.
Import example_libraries.

(** The theorem at a signal of three frames, with the default bounds. *)
Lemma subtract_pil_bounded_gain_witness :
  let sig := [4; 6; 5] in
  let pil := [1; 3; 2] in
  length sig = length pil ∧ 0 <= 1.5 ∧
  ∃ sig_corrected a,
    subtract_pil sig pil 0 1.5 = Ok (sig_corrected, a) ∧
    0 <= a <= 1.5 ∧
    minimize_scalar (mincorr sig pil) (0, 1.5) = Ok a ∧
    (∀ x, mincorr sig pil x =
          Rabs (np_corrcoef (vsub sig (vscale x pil)) pil)) ∧
    sig_corrected =
      vshift (np_mean (vscale a pil)) (vsub sig (vscale a pil)) ∧
    np_mean sig_corrected = np_mean sig.
Proof.
  intros sig pil. split; [reflexivity|]. split; [lra|].
  apply (subtract_pil_bounded_gain sig pil 0 1.5); [reflexivity | lra].
Defined.

End worked_examples_subtraction.

(** ** C10: subtraction over a dictionary of trace matrices *)

Lemma length_mean_of_rings (M : ndarray R) :
  length (mean_of_rings M) = length (nd_data M).
Proof. apply length_map. Qed.

Section subtraction_dict.
Context `{LibrariesOk}.

(** One pass of the loop on an entry that is there and has a column 0. *)
Lemma subtract_entry_Ok (S : gmap nat (ndarray R)) (i : nat) (M : ndarray R)
    (S_subtract : gmap nat (list R)) (a : gmap nat R) :
  S !! i = Some M → (0 < nd_cols M)%nat →
  ∃ s g,
    subtract_pil (column 0 M) (mean_of_rings M) 0 1.5 = Ok (s, g) ∧
    subtract_entry S i (S_subtract, a) =
      Ok (<[i:=s]> S_subtract, <[i:=g]> a).
Proof.
  intros HM Hcols.
  destruct (subtract_pil_Ok (column 0 M) (mean_of_rings M) 0 1.5)
    as (g & _ & _ & Hsub);
    [by rewrite length_column, length_mean_of_rings | lra |].
  eexists _, g. split; [exact Hsub|].
  unfold subtract_entry. rewrite HM, bind_ret, getcol_Ok, bind_ret by done.
  by rewrite Hsub.
Qed.

(** The loop of [subtract_dict]: the keys of the two results, and what
    each pass stores under its key. *)
Lemma subtract_dict_loop (S : gmap nat (ndarray R))
    (n_noncell : nat) :
  dom S = set_seq 0 (size S) →
  (∀ i M, (n_noncell ≤ i)%nat → S !! i = Some M → (0 < nd_cols M)%nat) →
  (n_noncell ≤ size S)%nat →
  ∃ S_subtract a,
    subtract_dict S n_noncell = Ok (S_subtract, a) ∧
    dom S_subtract = set_seq n_noncell (size S - n_noncell) ∧
    dom a = set_seq n_noncell (size S - n_noncell) ∧
    (∀ i, (i < n_noncell)%nat → S_subtract !! i = None ∧ a !! i = None) ∧
    ∀ i M, (n_noncell ≤ i < size S)%nat → S !! i = Some M →
      ∃ s g,
        subtract_pil (column 0 M) (mean_of_rings M) 0 1.5 = Ok (s, g) ∧
        S_subtract !! i = Some s ∧ a !! i = Some g.
Proof.
  intros Hdom Hcols Hn. unfold subtract_dict.
  destruct (for_each_seq_inv
    (λ j (acc : gmap nat (list R) * gmap nat R),
       dom acc.1 = set_seq n_noncell (j - n_noncell) ∧
       dom acc.2 = set_seq n_noncell (j - n_noncell) ∧
       ∀ i M, (n_noncell ≤ i < j)%nat → S !! i = Some M →
         ∃ s g,
           subtract_pil (column 0 M) (mean_of_rings M) 0 1.5 = Ok (s, g) ∧
           acc.1 !! i = Some s ∧ acc.2 !! i = Some g)
    (subtract_entry S) (size S - n_noncell) n_noncell (∅, ∅))
    as ([S_subtract a] & Hloop & HdS & Hda & Hentries).
  - simpl. rewrite Nat.sub_diag, !dom_empty_L. split_and!; [done..|].
    intros i M Hi. lia.
  - intros j [Ssub a] Hj (HdS & Hda & Hentries). simpl in HdS, Hda, Hentries.
    assert (j ∈ dom S) as Hin by (rewrite Hdom, elem_of_set_seq; lia).
    apply elem_of_dom in Hin as [M HM].
    destruct (subtract_entry_Ok S j M Ssub a HM) as (s & g & Hsub & ->);
      [apply (Hcols j M); [lia | done]|].
    eexists. split; [done|]. simpl.
    replace (Datatypes.S j - n_noncell)%nat
      with (Datatypes.S (j - n_noncell)) by lia.
    rewrite !dom_insert_L, !set_seq_S_end_union_L, HdS, Hda.
    replace (n_noncell + (j - n_noncell))%nat with j by lia.
    split_and!; [done..|].
    intros i M' Hi HM'. destruct (decide (i = j)) as [->|Hne].
    + rewrite HM in HM'. injection HM' as <-.
      exists s, g. by rewrite !lookup_insert_eq.
    + destruct (Hentries i M') as (s' & g' & ? & ? & ?); [lia | done |].
      exists s', g'. by rewrite !lookup_insert_ne.
  - exists S_subtract, a. simpl in HdS, Hda, Hentries.
    replace (n_noncell + (size S - n_noncell) - n_noncell)%nat
      with (size S - n_noncell)%nat in HdS, Hda by lia.
    split_and!; [done..| |].
    + intros i Hi. split; apply not_elem_of_dom; rewrite ?HdS, ?Hda;
        rewrite elem_of_set_seq; lia.
    + intros i M Hi. apply Hentries. lia.
Qed.

(** What [subtract_dict] passes to [subtract_pil] for an entry [M] with
    a ring column: column 0, and row by row the sum of the columns from 1
    on divided by their number. *)
Lemma drop_1_nth (row : list R) :
  drop 1 row = map (λ c, nth c row 0) (seq 1 (length row - 1)).
Proof.
  destruct row as [|x row]; [done|]. simpl. rewrite Nat.sub_0_r.
  rewrite <- seq_shift, map_map. simpl. by rewrite map_nth_seq.
Qed.

Lemma subtract_dict_arguments (M : ndarray R) :
  nd_wf M → (1 < nd_cols M)%nat →
  length (column 0 M) = nd_rows M ∧
  length (mean_of_rings M) = nd_rows M ∧
  ∀ t row, nd_data M !! t = Some row →
    column 0 M !! t = row !! 0%nat ∧
    mean_of_rings M !! t =
      Some (np_sum (map (λ c, nth c row 0) (seq 1 (nd_cols M - 1))) /
            INR (nd_cols M - 1)).
Proof.
  intros [Hl Hr] Hcols.
  split; [by rewrite length_column|].
  split; [by rewrite length_mean_of_rings|].
  intros t row Hrow.
  pose proof (Forall_lookup_1 _ _ _ _ Hr Hrow) as Hlen. simpl in Hlen.
  split.
  - rewrite column_lookup, Hrow. simpl.
    destruct (lookup_lt_is_Some_2 row 0) as [x Hx]; [lia|].
    rewrite Hx. f_equal. by apply nth_default_lookup.
  - unfold mean_of_rings. rewrite list_lookup_fmap, Hrow. simpl. f_equal.
    unfold np_mean. rewrite length_drop, Hlen. f_equal.
    by rewrite drop_1_nth, Hlen.
Qed.

(** C10. For a dictionary [S] whose keys are [0, ..., len(S)-1], each
    entry from [n_noncell] on a 2-d array with a column 0 and at least one
    ring column, and [n_noncell <= len(S)], [subtract_dict] returns two
    dictionaries whose key sets are both exactly
    [{n_noncell, ..., len(S)-1}] (the skipped indices are absent), and
    entry [i] of each is what [subtract_pil] returns, with the bounds 0
    and 1.5, for the signal [sig] and the neuropil estimate [pil] read
    from [M = S[i]]: at each time point [t], [sig[t]] is [M[t, 0]] and
    [pil[t]] is the sum of [M[t, 1]], ..., [M[t, cols-1]] divided by
    [cols - 1], the mean of the ring columns. *)
Theorem subtract_dict_keys_and_entries (S : gmap nat (ndarray R))
    (n_noncell : nat) :
  dom S = set_seq 0 (size S) →
  (∀ i M, (n_noncell ≤ i)%nat → S !! i = Some M →
          nd_wf M ∧ (1 < nd_cols M)%nat) →
  (n_noncell ≤ size S)%nat →
  ∃ S_subtract a,
    subtract_dict S n_noncell = Ok (S_subtract, a) ∧
    dom S_subtract = set_seq n_noncell (size S - n_noncell) ∧
    dom a = set_seq n_noncell (size S - n_noncell) ∧
    (∀ i, (i < n_noncell)%nat → S_subtract !! i = None ∧ a !! i = None) ∧
    ∀ i M, (n_noncell ≤ i < size S)%nat → S !! i = Some M →
      ∃ sig pil s g,
        length sig = nd_rows M ∧ length pil = nd_rows M ∧
        (∀ t row, nd_data M !! t = Some row →
           sig !! t = row !! 0%nat ∧
           pil !! t =
             Some (np_sum (map (λ c, nth c row 0) (seq 1 (nd_cols M - 1))) /
                   INR (nd_cols M - 1))) ∧
        subtract_pil sig pil 0 1.5 = Ok (s, g) ∧
        S_subtract !! i = Some s ∧ a !! i = Some g.
Proof.
  intros Hdom Hentries Hn.
  destruct (subtract_dict_loop S n_noncell Hdom) as
    (S_subtract & a & Hsub & HdS & Hda & Hskip & Hstored); [|done|].
  { intros i M Hi HM. destruct (Hentries i M Hi HM). lia. }
  exists S_subtract, a. split_and!; [done..|].
  intros i M Hi HM.
  destruct (Hstored i M Hi HM) as (s & g & Hpil & Hs & Hg).
  destruct (Hentries i M) as [Hwf Hcols]; [lia | done |].
  destruct (subtract_dict_arguments M Hwf Hcols) as (Hlsig & Hlpil & Hat).
  by exists (column 0 M), (mean_of_rings M), s, g.
Qed.

End subtraction_dict.

Section worked_examples_subtraction_dict.
Import example_libraries.

(** The theorem at a dictionary of two trace matrices, three frames by a
    primary column and two rings, the first of which is a non-cell. *)
Lemma subtract_dict_keys_and_entries_witness :
  let M0 := mk_ndarray 3 3 [[4; 1; 3]; [6; 3; 5]; [5; 2; 2]] in
  let M1 := mk_ndarray 3 3 [[9; 2; 4]; [8; 1; 1]; [7; 3; 5]] in
  let S : gmap nat (ndarray R) := <[0%nat := M0]> (<[1%nat := M1]> ∅) in
  let n_noncell := 1%nat in
  dom S = set_seq 0 (size S) ∧
  (∀ i M, (n_noncell ≤ i)%nat → S !! i = Some M →
          nd_wf M ∧ (1 < nd_cols M)%nat) ∧
  (n_noncell ≤ size S)%nat ∧
  ∃ S_subtract a,
    subtract_dict S n_noncell = Ok (S_subtract, a) ∧
    dom S_subtract = set_seq n_noncell (size S - n_noncell) ∧
    dom a = set_seq n_noncell (size S - n_noncell) ∧
    (∀ i, (i < n_noncell)%nat → S_subtract !! i = None ∧ a !! i = None) ∧
    ∀ i M, (n_noncell ≤ i < size S)%nat → S !! i = Some M →
      ∃ sig pil s g,
        length sig = nd_rows M ∧ length pil = nd_rows M ∧
        (∀ t row, nd_data M !! t = Some row →
           sig !! t = row !! 0%nat ∧
           pil !! t =
             Some (np_sum (map (λ c, nth c row 0) (seq 1 (nd_cols M - 1))) /
                   INR (nd_cols M - 1))) ∧
        subtract_pil sig pil 0 1.5 = Ok (s, g) ∧
        S_subtract !! i = Some s ∧ a !! i = Some g.
Proof.
  intros M0 M1 S n_noncell.
  assert (size S = 2%nat) as Hsize.
  { unfold S. rewrite !map_size_insert_None; [by rewrite map_size_empty|..].
    - apply lookup_empty.
    - rewrite lookup_insert_ne by done. apply lookup_empty. }
  assert (dom S = set_seq 0 (size S)) as Hdom.
  { rewrite Hsize. unfold S. rewrite !dom_insert_L, dom_empty_L.
    apply set_eq. intros x.
    rewrite elem_of_set_seq, !elem_of_union, !elem_of_singleton, elem_of_empty.
    lia. }
  assert (∀ i M, (n_noncell ≤ i)%nat → S !! i = Some M →
                 nd_wf M ∧ (1 < nd_cols M)%nat) as Hcols.
  { intros i M _ Hi. unfold S in Hi.
    apply lookup_insert_Some in Hi as [[_ <-]|[_ Hi]];
      [split; [split; [done | by repeat constructor] | simpl; lia]|].
    apply lookup_insert_Some in Hi as [[_ <-]|[_ Hi]];
      [split; [split; [done | by repeat constructor] | simpl; lia]|].
    by rewrite lookup_empty in Hi. }
  assert (n_noncell ≤ size S)%nat as Hn by (rewrite Hsize; unfold n_noncell; lia).
  split; [exact Hdom|]. split; [exact Hcols|]. split; [exact Hn|].
  apply (subtract_dict_keys_and_entries S n_noncell Hdom Hcols Hn).
Defined.

End worked_examples_subtraction_dict.

(** ** C9: saving a stage without a destination *)

(** C9. For an experiment constructed without a cache directory, saving
    either stage ([save_prep], [save_separated]) without an explicit
    destination fails with [ValueError]. *)
Theorem save_without_destination (exp : core.Experiment)
    (fs : core.filesystem) :
  core.folder exp = None →
  core.save_prep exp None fs = Raise ValueError ∧
  core.save_separated exp None fs = Raise ValueError.
Proof.
  intros Hfolder. unfold core.save_prep, core.save_separated, core.save_stage.
  by rewrite Hfolder.
Qed.

(** The theorem at an experiment with no cache directory and an empty
    file system. *)
Lemma save_without_destination_witness :
  let exp := core.mk_Experiment None ∅ ∅ in
  core.folder exp = None ∧
  core.save_prep exp None ∅ = Raise ValueError ∧
  core.save_separated exp None ∅ = Raise ValueError.
Proof.
  intros exp. split; [reflexivity|].
  apply (save_without_destination exp ∅). reflexivity.
Defined.

(** ** C6: polygons or masks *)

Section rois.
Import extraction.
Context `{Roitools}.

Lemma tifffile_dispatches (data : array3) :
  dispatches_on_shape (λ rois, DataHandlerTifffile.rois2masks rois data)
    [a3_y data; a3_x data].
Proof.
  split; [done|]. split; [done|].
  intros r0 rois d0 d1 dims Hshape given.
  unfold given, DataHandlerTifffile.rois2masks, index. simpl.
  rewrite Hshape. simpl. split_and!.
  - intros [-> | ->]; [by rewrite decide_True|].
    destruct (decide (d1 = 2%nat)); [done|]. by rewrite decide_True.
  - intros H1 H0 Hs. by rewrite !decide_False, decide_True by congruence.
  - intros H1 H0 Hs. by rewrite !decide_False by congruence.
Qed.

Lemma pillow_dispatches (data : PIL_Image) :
  dispatches_on_shape (λ rois, DataHandlerPillow.rois2masks rois data)
    [(im_size data).2; (im_size data).1].
Proof.
  split; [done|]. split; [done|].
  intros r0 rois d0 d1 dims Hshape given.
  unfold given, DataHandlerPillow.rois2masks, index. simpl.
  rewrite Hshape. simpl. split_and!.
  - intros [-> | ->]; [by rewrite decide_True|].
    destruct (decide (d1 = 2%nat)); [done|]. by rewrite decide_True.
  - intros H1 H0 Hs. by rewrite !decide_False, decide_True by congruence.
  - intros H1 H0 Hs. by rewrite !decide_False by congruence.
Qed.

(** C6, as the code has it. For both handlers: an input that is not a
    sequence raises [TypeError]; a path is replaced by the polygons read
    from it; a sequence whose first element has at least two dimensions
    is rasterised as polygons when its second or its first dimension is 2
    (this test comes first, so it also takes masks of a frame that is 2
    pixels high or wide); otherwise it is returned as masks when the shape
    of its first element is the frame shape; and otherwise [ValueError] is
    raised at once. *)
Theorem rois2masks_dispatch (data : array3) (image : PIL_Image) :
  dispatches_on_shape (λ rois, DataHandlerTifffile.rois2masks rois data)
    [a3_y data; a3_x data] ∧
  dispatches_on_shape (λ rois, DataHandlerPillow.rois2masks rois image)
    [(im_size image).2; (im_size image).1].
Proof. split; [apply tifffile_dispatches | apply pillow_dispatches]. Qed.

(** A first element with fewer than two dimensions runs into the
    unguarded [np.shape(rois[0])[1]]: [IndexError]. An empty list fails
    the same way at [rois[0]]. *)
Lemma rois2masks_flat_element (data : array3) (n : nat) (values : list R) :
  DataHandlerTifffile.rois2masks
    (RoisSequence [mk_array_like [n] values]) data = Raise IndexError ∧
  DataHandlerTifffile.rois2masks (RoisSequence []) data = Raise IndexError.
Proof. done. Qed.

End rois.

Section worked_examples_rois.
Import extraction example_libraries.

(** C6 as worded fails: on a movie whose frames are 2 pixels high and 3
    wide, a list holding one mask of exactly the frame shape is not
    returned as masks; its first dimension is 2, so both handlers hand it
    to the polygon rasteriser. *)
Lemma rois2masks_mask_counterexample :
  let frame := mk_ndarray 2 3 [[10; 11; 12]; [13; 14; 15]] in
  let data := mk_array3 1 2 3 [frame] in
  let image := mk_PIL_Image (3, 2)%nat 1 [frame] 0 in
  let mask := mk_array_like [2; 3]%nat [1; 0; 0; 0; 1; 0] in
  al_shape mask = [a3_y data; a3_x data] ∧
  al_shape mask = [(im_size image).2; (im_size image).1] ∧
  DataHandlerTifffile.rois2masks (RoisSequence [mask]) data =
    Ok (getmasks [mask] [2; 3]%nat) ∧
  DataHandlerTifffile.rois2masks (RoisSequence [mask]) data ≠
    Ok (masks_given [mask]) ∧
  DataHandlerPillow.rois2masks (RoisSequence [mask]) image =
    Ok (getmasks [mask] [2; 3]%nat) ∧
  DataHandlerPillow.rois2masks (RoisSequence [mask]) image ≠
    Ok (masks_given [mask]).
Proof. intros frame data image mask. split_and!; done. Qed.

End worked_examples_rois.

(** ** The two image handlers extract the same traces *)

Lemma setrow_spec (M : ndarray R) (i : nat) (v : list R) :
  nd_wf M → (i < nd_rows M)%nat → length v = nd_cols M →
  ∃ M', setrow M i v = Ok M' ∧ nd_wf M' ∧ np_shape M' = np_shape M ∧
        nd_data M' !! i = Some v ∧
        ∀ i', i' ≠ i → nd_data M' !! i' = nd_data M !! i'.
Proof.
  intros [Hl Hr] Hi Hv. unfold setrow. rewrite !decide_True by done.
  eexists. split; [done|]. simpl. split_and!.
  - split; simpl; [by rewrite length_insert|].
    apply Forall_insert; done.
  - done.
  - apply list_lookup_insert_eq. lia.
  - intros i' Hne. by apply list_lookup_insert_ne.
Qed.

Lemma setitem_spec (M : ndarray R) (i j : nat) (x : R) :
  nd_wf M → (i < nd_rows M)%nat → (j < nd_cols M)%nat →
  ∃ M', setitem M i j x = Ok M' ∧ nd_wf M' ∧ np_shape M' = np_shape M ∧
        entry M' i j = Some x ∧
        ∀ i' j', (i' ≠ i ∨ j' ≠ j) → entry M' i' j' = entry M i' j'.
Proof.
  intros [Hl Hr] Hi Hj. unfold setitem.
  destruct (lookup_lt_is_Some_2 (nd_data M) i) as [r Hrow]; [lia|].
  pose proof (Forall_lookup_1 _ _ _ _ Hr Hrow) as Hlen. simpl in Hlen.
  rewrite Hrow, decide_True by lia.
  eexists. split; [done|]. split_and!.
  - split; simpl; [by rewrite length_insert|].
    apply Forall_insert; [done|]. by rewrite length_insert.
  - done.
  - unfold entry. simpl. rewrite list_lookup_insert_eq by lia. simpl.
    apply list_lookup_insert_eq. lia.
  - intros i' j' Hne. unfold entry. simpl.
    destruct (decide (i' = i)) as [->|Hi'].
    + rewrite list_lookup_insert_eq, Hrow by lia. simpl.
      apply list_lookup_insert_ne. destruct Hne; congruence.
    + by rewrite list_lookup_insert_ne.
Qed.

(** Two well-formed arrays of one shape with the same entries are the
    same array. *)
Lemma ndarray_ext (A B : ndarray R) :
  nd_wf A → nd_wf B → np_shape A = np_shape B →
  (∀ i j, (i < nd_rows A)%nat → (j < nd_cols A)%nat →
          entry A i j = entry B i j) →
  A = B.
Proof.
  destruct A as [ra ca da], B as [rb cb db].
  intros [HlA HrA] [HlB HrB] [= -> ->] Hentries. simpl in *.
  f_equal. apply list_eq. intros i.
  destruct (decide (i < rb)%nat) as [Hi|Hi].
  - destruct (lookup_lt_is_Some_2 da i) as [r Hr]; [lia|].
    destruct (lookup_lt_is_Some_2 db i) as [r' Hr']; [lia|].
    rewrite Hr, Hr'. f_equal.
    pose proof (Forall_lookup_1 _ _ _ _ HrA Hr) as Hlr.
    pose proof (Forall_lookup_1 _ _ _ _ HrB Hr') as Hlr'. simpl in *.
    apply list_eq. intros j.
    destruct (decide (j < cb)%nat) as [Hj|Hj].
    + specialize (Hentries i j Hi Hj). unfold entry in Hentries.
      simpl in Hentries. by rewrite Hr, Hr' in Hentries.
    + rewrite !lookup_ge_None_2 by lia. done.
  - rewrite !lookup_ge_None_2 by lia. done.
Qed.

Section traces.
Import extraction.

Lemma traces_of_wf (data : array3) (masks : list (ndarray bool)) :
  array3_wf data → nd_wf (traces_of data masks).
Proof.
  intros [Hl _]. split; simpl; [by rewrite length_map|].
  apply Forall_map, Forall_forall. intros m _. simpl.
  unfold mask_trace. by rewrite length_map.
Qed.

Lemma entry_traces_of (data : array3) (masks : list (ndarray bool))
    (i f : nat) (mask : ndarray bool) (frame : ndarray R) :
  masks !! i = Some mask → a3_data data !! f = Some frame →
  entry (traces_of data masks) i f = Some (np_mean (masked mask frame)).
Proof.
  intros Hm Hf. unfold entry, traces_of. simpl.
  rewrite list_lookup_fmap, Hm. simpl.
  unfold mask_trace. by rewrite list_lookup_fmap, Hf.
Qed.

Lemma index_Ok {A} (l : list A) (i : nat) (x : A) :
  l !! i = Some x → index l i = Ok x.
Proof. intros Hx. unfold index. by rewrite Hx. Qed.

(** The whole-movie handler: row [i] of the result is the trace of mask
    [i]. *)
Lemma tifffile_extracttraces_spec (data : array3)
    (masks : list (ndarray bool)) :
  array3_wf data →
  Forall (λ m, np_shape m = (a3_y data, a3_x data)) masks →
  DataHandlerTifffile.extracttraces data masks = Ok (traces_of data masks).
Proof.
  intros Hwf Hmasks. pose proof Hwf as [Hlen Hframes].
  unfold DataHandlerTifffile.extracttraces.
  destruct (for_each_range_inv
    (λ j out, nd_wf out ∧
              np_shape out = (length masks, a3_frames data) ∧
              ∀ i m, (i < j)%nat → masks !! i = Some m →
                     nd_data out !! i = Some (mask_trace (a3_data data) m))
    (λ i out,
       mask ← index masks i;
       picked ← bool_index3 data mask;
       setrow out i (map np_mean picked))
    (length masks) (np_zeros (length masks, a3_frames data)))
    as (out & -> & Hwo & Hso & Hrows).
  - split_and!; [apply np_zeros_wf | done | intros; lia].
  - intros j out Hj (Hwo & Hso & Hrows).
    destruct (lookup_lt_is_Some_2 masks j Hj) as [m Hm].
    rewrite (index_Ok _ _ _ Hm), bind_ret.
    unfold bool_index3.
    rewrite decide_True by (apply (Forall_lookup_1 _ _ _ _ Hmasks Hm)).
    rewrite bind_ret.
    injection Hso as Hro Hco.
    destruct (setrow_spec out j (map np_mean (map (masked m) (a3_data data))))
      as (out' & -> & Hwo' & Hso' & Hrow & Hother);
      [done | lia | rewrite !length_map; lia |].
    exists out'. split; [done|]. split_and!; [done | |].
    + rewrite Hso'. unfold np_shape. by rewrite Hro, Hco.
    + intros i m' Hi Hm'. destruct (decide (i = j)) as [->|Hne].
      * rewrite Hrow. rewrite Hm in Hm'. injection Hm' as <-.
        unfold mask_trace. by rewrite <- list_fmap_compose.
      * rewrite Hother by done. apply Hrows; [lia | done].
  - f_equal. destruct out as [r c d]. destruct Hwo as [Hl Hr].
    injection Hso as -> ->. simpl in *. unfold traces_of. f_equal.
    apply list_eq. intros i. rewrite list_lookup_fmap.
    destruct (masks !! i) as [m|] eqn:Hm; simpl.
    + apply Hrows; [|done]. by eapply lookup_lt_Some.
    + apply lookup_ge_None. apply lookup_ge_None in Hm. lia.
Qed.

(** The inner loop of the streaming handler fills column [f] of the
    result with the means over the current frame and leaves the other
    columns alone. *)
Lemma extract_frame_spec (data : array3) (masks : list (ndarray bool))
    (curframe : ndarray R) (f : nat) (out : ndarray R) :
  a3_data data !! f = Some curframe →
  np_shape curframe = (a3_y data, a3_x data) →
  Forall (λ m, np_shape m = (a3_y data, a3_x data)) masks →
  nd_wf out → np_shape out = (length masks, a3_frames data) →
  (f < a3_frames data)%nat →
  ∃ out',
    DataHandlerPillow.extract_frame curframe masks f out = Ok out' ∧
    nd_wf out' ∧ np_shape out' = (length masks, a3_frames data) ∧
    (∀ i, (i < length masks)%nat →
          entry out' i f = entry (traces_of data masks) i f) ∧
    ∀ i f', f' ≠ f → entry out' i f' = entry out i f'.
Proof.
  intros Hframe Hshape Hmasks Hwo Hso Hf.
  unfold DataHandlerPillow.extract_frame.
  destruct (for_each_range_inv
    (λ j out', nd_wf out' ∧
               np_shape out' = (length masks, a3_frames data) ∧
               (∀ i, (i < j)%nat →
                     entry out' i f = entry (traces_of data masks) i f) ∧
               ∀ i f', f' ≠ f → entry out' i f' = entry out i f')
    (λ i out,
       mask ← index masks i;
       picked ← bool_index curframe mask;
       setitem out i f (np_mean picked))
    (length masks) out) as (out' & Hloop & Hinv).
  - split_and!; [done | done | intros; lia | done].
  - intros j o Hj (Hwo' & Hso' & Hcol & Hrest).
    destruct (lookup_lt_is_Some_2 masks j Hj) as [m Hm].
    rewrite (index_Ok _ _ _ Hm), bind_ret.
    unfold bool_index.
    rewrite decide_True
      by (rewrite Hshape; apply (Forall_lookup_1 _ _ _ _ Hmasks Hm)).
    rewrite bind_ret. injection Hso' as Hro Hco.
    destruct (setitem_spec o j f (np_mean (masked m curframe)))
      as (o' & -> & Hwo'' & Hso'' & Hset & Hother); [done | lia | lia |].
    exists o'. split; [done|]. split_and!; [done | | |].
    + rewrite Hso''. unfold np_shape. by rewrite Hro, Hco.
    + intros i Hi. destruct (decide (i = j)) as [->|Hne].
      * rewrite Hset. symmetry. by apply entry_traces_of.
      * rewrite Hother by (by left). apply Hcol. lia.
    + intros i f' Hf'. rewrite Hother by (by right). by apply Hrest.
  - exists out'. by destruct Hinv as (? & ? & ? & ?).
Qed.

(** The streaming handler: the same array, and the handle left on the
    last frame. *)
Lemma pillow_extracttraces_spec (data : array3) (image : PIL_Image)
    (masks : list (ndarray bool)) :
  array3_wf data → same_movie data image → (0 < a3_frames data)%nat →
  Forall (λ m, np_shape m = (a3_y data, a3_x data)) masks →
  ∃ image',
    DataHandlerPillow.extracttraces image masks =
      Ok (traces_of data masks, image') ∧
    im_frames image' = im_frames image ∧
    im_tell image' = (a3_frames data - 1)%nat.
Proof.
  intros Hwf (Hsame & Hn & Hsize) Hpos Hmasks.
  pose proof Hwf as [Hlen Hframes].
  unfold DataHandlerPillow.extracttraces, seek.
  rewrite decide_True, bind_ret by lia. simpl im_n_frames. rewrite Hn.
  destruct (for_each_range_inv
    (λ f (st : PIL_Image * ndarray R),
       im_frames st.1 = a3_data data ∧
       im_n_frames st.1 = a3_frames data ∧
       im_size st.1 = im_size image ∧
       im_tell st.1 = (f - 1)%nat ∧
       nd_wf st.2 ∧
       np_shape st.2 = (length masks, a3_frames data) ∧
       ∀ i f', (i < length masks)%nat → (f' < f)%nat →
               entry st.2 i f' = entry (traces_of data masks) i f')
    (λ f '(data, out),
       data ← (if decide (f < im_n_frames data)%nat
               then Ok (mk_PIL_Image (im_size data) (im_n_frames data)
                          (im_frames data) f)
               else Raise EOFError);
       curframe ← asarray data;
       out ← DataHandlerPillow.extract_frame curframe masks f out;
       Ok (data, out))
    (a3_frames data)
    (mk_PIL_Image (im_size image) (a3_frames data) (im_frames image) 0,
     np_zeros (length masks, a3_frames data)))
    as ([image' out] & Hloop & Hfr & Hnf & Hsz & Htell & Hwo & Hso & Hent).
  - simpl. split_and!; [done | done | done | done | apply np_zeros_wf | done |].
    intros; lia.
  - intros f [img o] Hf (Hfr & Hnf & Hsz & Htell & Hwo & Hso & Hent).
    simpl in Hfr, Hnf, Hsz, Htell, Hwo, Hso, Hent.
    rewrite decide_True, bind_ret by lia.
    destruct (lookup_lt_is_Some_2 (a3_data data) f) as [fr Hframe]; [lia|].
    unfold asarray. simpl. rewrite Hfr, Hframe, bind_ret.
    destruct (extract_frame_spec data masks fr f o)
      as (o' & -> & Hwo' & Hso' & Hcol & Hrest);
      [done | apply (Forall_lookup_1 _ _ _ _ Hframes Hframe) | done..|].
    rewrite bind_ret. eexists. split; [done|]. simpl.
    split_and!; [done | done | done | lia | done | done |].
    intros i f' Hi Hf'. destruct (decide (f' = f)) as [->|Hne].
    + by apply Hcol.
    + rewrite Hrest by done. apply Hent; [done | lia].
  - simpl in Hfr, Hnf, Hsz, Htell, Hwo, Hso, Hent.
    unfold seek in Hloop. rewrite Hloop, bind_ret.
    exists image'. split_and!; [| congruence | done].
    do 2 f_equal. apply ndarray_ext.
    + done.
    + by apply traces_of_wf.
    + by rewrite Hso.
    + injection Hso as -> ->. intros i f Hi Hf. by apply Hent.
Qed.

End traces.



(** ** The matching step under a reordering of the regions *)

Lemma for_each_ext {X St} (xs : list X) (body body' : X → St → result St)
    (s : St) :
  (∀ x t, body x t = body' x t) →
  for_each xs body s = for_each xs body' s.
Proof.
  intros Hext. revert s. induction xs as [|x xs IH]; intros s; simpl; [done|].
  rewrite Hext. destruct (body' x s); simpl; [apply IH | done].
Qed.

Lemma nth_column (c i : nat) (M : ndarray R) :
  nth i (column c M) 0 = nth c (nth i (nd_data M) []) 0.
Proof.
  unfold column. rewrite !nth_lookup, list_lookup_fmap.
  destruct (nd_data M !! i) as [r|]; simpl; [by rewrite nth_lookup|].
  by destruct c.
Qed.

(** A column of the reordered array is the column, reordered. *)
Lemma column_permute_rows (σ : list nat) (M : ndarray R) (c : nat) :
  column c (permute_rows σ M) = map (λ i, nth i (column c M) 0) σ.
Proof.
  unfold column at 1. simpl. rewrite <- list_fmap_compose.
  apply list_fmap_ext. intros _ i _. simpl. by rewrite nth_column.
Qed.

(** Reordering a list by a permutation of its indices that keeps index 0
    permutes the list and keeps its head. *)
Lemma reordered_list (σ : list nat) (l : list R) :
  neuropil_permutation σ (length l) →
  map (λ i, nth i l 0) σ ≡ₚ l ∧
  head (map (λ i, nth i l 0) σ) = head l.
Proof.
  intros [Hperm H0]. split.
  - rewrite Hperm. by rewrite map_nth_seq.
  - rewrite !head_lookup, list_lookup_fmap, H0. simpl.
    destruct l as [|x l]; [|done].
    apply Permutation_length in Hperm. simpl in Hperm.
    destruct σ; [done | simpl in Hperm; lia].
Qed.

Lemma permute_rows_wf (σ : list nat) (M : ndarray R) :
  nd_wf M → σ ≡ₚ seq 0 (nd_rows M) → nd_wf (permute_rows σ M).
Proof.
  intros [Hl Hr] Hperm. split; simpl.
  - by rewrite length_map, (Permutation_length Hperm), length_seq.
  - apply Forall_map, Forall_forall. intros i Hi. simpl.
    rewrite Hperm, elem_of_seq in Hi.
    destruct (lookup_lt_is_Some_2 (nd_data M) i) as [r Hrow]; [lia|].
    rewrite (nth_lookup_Some _ _ _ _ Hrow).
    apply (Forall_lookup_1 _ _ _ _ Hr Hrow).
Qed.

Lemma permute_rows_row0 (σ : list nat) (M : ndarray R) :
  nd_wf M → (0 < nd_rows M)%nat → neuropil_permutation σ (nd_rows M) →
  nd_data (permute_rows σ M) !! 0%nat = nd_data M !! 0%nat.
Proof.
  intros [Hl Hr] Hpos [_ H0]. simpl. rewrite list_lookup_fmap, H0. simpl.
  destruct (lookup_lt_is_Some_2 (nd_data M) 0) as [r Hrow]; [lia|].
  by rewrite Hrow, (nth_lookup_Some _ _ _ _ Hrow).
Qed.

Lemma getrow_permute_rows (σ : list nat) (M : ndarray R) :
  nd_wf M → (0 < nd_rows M)%nat → neuropil_permutation σ (nd_rows M) →
  getrow (permute_rows σ M) 0 = getrow M 0.
Proof.
  intros Hwf Hpos Hσ. unfold getrow. by rewrite permute_rows_row0.
Qed.

Lemma getitem_permute_rows (σ : list nat) (M : ndarray R) (j : nat) :
  nd_wf M → (0 < nd_rows M)%nat → neuropil_permutation σ (nd_rows M) →
  getitem (permute_rows σ M) 0 j = getitem M 0 j.
Proof.
  intros Hwf Hpos Hσ. unfold getitem. by rewrite getrow_permute_rows.
Qed.

Lemma head_map {A B} (f : A → B) (l : list A) : head (map f l) = f <$> head l.
Proof. by destruct l. Qed.

Lemma normalised_reordered (u' u : list R) :
  u' ≡ₚ u → head u' = head u → head (normalised u') = head (normalised u).
Proof.
  intros Hperm Hhead. unfold normalised.
  rewrite (np_sum_Permutation u' u Hperm).
  destruct (decide (np_sum u ≠ 0)); [|done].
  by rewrite !head_map, Hhead.
Qed.

(** Two arrays of one shape whose columns start alike have the same
    row 0. *)
Lemma getrow_0_from_columns (A B : ndarray R) :
  nd_wf A → nd_wf B → np_shape A = np_shape B → (0 < nd_rows A)%nat →
  (∀ c, head (column c A) = head (column c B)) →
  getrow A 0 = getrow B 0.
Proof.
  intros HwA HwB Hsh Hpos Hcols. injection Hsh as Hr Hc.
  destruct (getrow_Ok A 0 HwA Hpos) as (r & -> & Hrow & Hlen).
  destruct (getrow_Ok B 0 HwB) as (r' & -> & Hrow' & Hlen'); [lia|].
  f_equal. apply list_eq. intros c.
  destruct (decide (c < nd_cols A)%nat) as [Hlt|Hge].
  - destruct (lookup_lt_is_Some_2 r c) as [x Hx]; [lia|].
    destruct (lookup_lt_is_Some_2 r' c) as [x' Hx']; [lia|].
    rewrite Hx, Hx'. f_equal.
    specialize (Hcols c). rewrite !head_lookup, !column_lookup in Hcols.
    rewrite Hrow, Hrow' in Hcols. simpl in Hcols.
    rewrite (nth_default_lookup _ _ _ Hx), (nth_default_lookup _ _ _ Hx')
      in Hcols.
    by injection Hcols.
  - rewrite !lookup_ge_None_2 by lia. done.
Qed.

(** The scores do not depend on the order of the non-primary rows of the
    mixing matrix. *)
Lemma scores_of_permute_rows (σ : list nat) (A_sep : ndarray R) (k : nat) :
  nd_wf A_sep → (0 < nd_rows A_sep)%nat → (k ≤ nd_cols A_sep)%nat →
  neuropil_permutation σ (nd_rows A_sep) →
  scores_of (permute_rows σ A_sep) k = scores_of A_sep k.
Proof.
  intros Hwf Hpos Hk Hσ. unfold scores_of.
  pose proof (permute_rows_wf σ A_sep Hwf (proj1 Hσ)) as Hwf'.
  destruct (normalise_spec A_sep k Hwf Hk) as (A & -> & HwA & HsA & Hcols).
  destruct (normalise_spec (permute_rows σ A_sep) k Hwf' Hk)
    as (A' & -> & HwA' & HsA' & Hcols').
  rewrite !bind_ret.
  apply getrow_0_from_columns; [done | done | by rewrite HsA, HsA' | |].
  - injection HsA'. simpl. lia.
  - intros c. rewrite Hcols, Hcols', !column_nd_abs, column_permute_rows.
    assert (neuropil_permutation σ (length (column c A_sep))) as Hσc.
    { rewrite length_column. by rewrite (proj1 Hwf). }
    destruct (reordered_list σ (column c A_sep) Hσc) as [Hperm Hhead].
    assert (map Rabs (map (λ i, nth i (column c A_sep) 0) σ)
              ≡ₚ map Rabs (column c A_sep)) as HpermA
      by (by apply Permutation_map).
    assert (head (map Rabs (map (λ i, nth i (column c A_sep) 0) σ)) =
            head (map Rabs (column c A_sep))) as HheadA
      by (by rewrite head_map, Hhead, (head_map Rabs (column c A_sep))).
    destruct (decide (c < k)%nat); [by apply normalised_reordered | done].
Qed.

(** One pass of the matching loop reads [S] and [A_sep] through their
    row 0 only. *)
Lemma match_component_row0 (S S' S_sep A_sep A_sep' : ndarray R)
    (sep_method : string) (order : list nat) (j : nat) (M : ndarray R) :
  getrow S' 0 = getrow S 0 →
  (∀ c, getitem A_sep' 0 c = getitem A_sep 0 c) →
  match_component S' sep_method S_sep A_sep' order j M =
  match_component S sep_method S_sep A_sep order j M.
Proof.
  intros HS HA. unfold match_component.
  destruct (order !! j) as [oj|]; [|done]. rewrite !bind_ret, HA.
  destruct (getitem A_sep 0 oj) as [a|]; [|done]. rewrite !bind_ret.
  destruct (getcol S_sep oj) as [c|]; [|done]. rewrite !bind_ret.
  destruct (setcol M j (vscale a c)) as [M1|]; [|done]. rewrite !bind_ret.
  repeat case_decide; try done;
    (destruct (getcol M1 j) as [m|]; [|done]); rewrite !bind_ret, HS; done.
Qed.

(** X19. The matching step of [separate] (lines 206-231) looks at the
    mixing matrix through its primary row and its column sums, and at the
    traces through the primary signal [S[0,:]] only: for the same
    separated components, reordering the non-primary regions, that is the
    rows of [S] and of [A_sep] from 1 on, in the same way leaves
    [S_matched] unchanged (in exact arithmetic). What the factorisation
    libraries return for reordered traces is not in the source and is not
    part of the statement. *)
Theorem match_components_permute_rows (σ : list nat) (S S_sep A_sep : ndarray R)
    (sep_method : string) (k : nat) `{neuropil.Libraries} :
  nd_wf S → (0 < nd_rows S)%nat →
  nd_wf A_sep → nd_rows A_sep = nd_rows S → (k ≤ nd_cols A_sep)%nat →
  neuropil_permutation σ (nd_rows S) →
  match_components (permute_rows σ S) sep_method k S_sep
    (permute_rows σ A_sep) =
  match_components S sep_method k S_sep A_sep.
Proof.
  intros HwS HposS HwA HrA Hk Hσ.
  assert (neuropil_permutation σ (nd_rows A_sep)) as HσA by (by rewrite HrA).
  pose proof (scores_of_permute_rows σ A_sep k HwA ltac:(lia) Hk HσA) as Hsc.
  unfold scores_of in Hsc. unfold match_components.
  destruct (normalise (permute_rows σ A_sep) k) as [A'|e'];
    destruct (normalise A_sep k) as [A|e]; simpl in Hsc |- *.
  - rewrite Hsc. destruct (getrow A 0) as [scores|]; simpl; [|done].
    apply for_each_ext. intros j M. apply match_component_row0.
    + by apply getrow_permute_rows.
    + intros c. apply getitem_permute_rows; [done | lia | done].
  - by rewrite Hsc.
  - by rewrite <- Hsc.
  - by injection Hsc as ->.
Qed.

Section worked_examples_reordering.
Import example_libraries.

(** Three regions, two components, four frames; the two neuropil regions
    swapped. *)
Lemma match_components_permute_rows_witness :
  let S := mk_ndarray 3 4 [[2; 4; 3; 5]; [5; 7; 6; 8]; [1; 9; 8; 2]] in
  let S_sep := mk_ndarray 4 2 [[1; 0]; [2; 1]; [0; 3]; [1; 1]] in
  let A_sep := mk_ndarray 3 2 [[1; -2]; [3; 1]; [0; 5]] in
  let σ := [0; 2; 1]%nat in
  nd_wf S ∧ (0 < nd_rows S)%nat ∧
  nd_wf A_sep ∧ nd_rows A_sep = nd_rows S ∧ (2 ≤ nd_cols A_sep)%nat ∧
  neuropil_permutation σ (nd_rows S) ∧
  match_components (permute_rows σ S) "ica" 2 S_sep (permute_rows σ A_sep) =
  match_components S "ica" 2 S_sep A_sep.
Proof.
  intros S S_sep A_sep σ.
  assert (nd_wf S) as HwS by (split; [done | by repeat constructor]).
  assert (0 < nd_rows S)%nat as Hpos by (simpl; lia).
  assert (nd_wf A_sep) as HwA by (split; [done | by repeat constructor]).
  assert (nd_rows A_sep = nd_rows S) as Hrows by done.
  assert (2 ≤ nd_cols A_sep)%nat as Hk by (simpl; lia).
  assert (neuropil_permutation σ (nd_rows S)) as Hσ.
  { split; [|done]. simpl. apply perm_skip, perm_swap. }
  split; [exact HwS|]. split; [exact Hpos|]. split; [exact HwA|].
  split; [exact Hrows|]. split; [exact Hk|]. split; [exact Hσ|].
  apply (match_components_permute_rows σ S S_sep A_sep "ica" 2
           HwS Hpos HwA Hrows Hk Hσ).
Defined.

End worked_examples_reordering.

(** * Further properties of the code *)

(** ** [separate]: arguments it rejects *)

(** X1. A [sep_method] other than 'ica', 'nmf' and 'nmf_sklearn' makes
    [separate] raise [ValueError], whatever the other arguments are, and
    no random state is drawn. *)
Theorem separate_unknown_method `{neuropil.Libraries} (S : ndarray R)
    (sep_method : string) (n_components : n_components_arg) (maxiter : Z)
    (tol : R) (random_state maxtries : Z) (w : world) :
  sep_method ∉ ["ica"; "nmf"; "nmf_sklearn"] →
  separate S sep_method n_components maxiter tol random_state maxtries w =
    (Raise ValueError, w).
Proof.
  intros Hm. rewrite !not_elem_of_cons in Hm.
  destruct Hm as (Hica & Hnmf & Hsk & _).
  unfold separate, factorise. by rewrite !decide_False by done.
Qed.

Section more_separate.
Context `{LibrariesOk}.

(** X2. With [maxtries <= 0] the retry loops of 'ica' and 'nmf_sklearn'
    are not entered, the fitted model stays unbound and [separate] raises
    [UnboundLocalError] without drawing a random state; 'nmf', which has
    no loop, returns as usual. *)
Theorem separate_without_tries (S : ndarray R) (k : nat) (maxiter : Z)
    (tol : R) (random_state maxtries : Z) (w : world) :
  (maxtries ≤ 0)%Z → valid_traces S k →
  separate S "ica" (NInt k) maxiter tol random_state maxtries w =
    (Raise UnboundLocalError, w) ∧
  separate S "nmf_sklearn" (NInt k) maxiter tol random_state maxtries w =
    (Raise UnboundLocalError, w) ∧
  ∃ out,
    separate S "nmf" (NInt k) maxiter tol random_state maxtries w =
      (Ok out, (nimfa_Nmf (transpose S) maxiter k w).2).
Proof.
  intros Hle Hvalid. split_and!.
  - unfold separate, factorise, factorise_ica, ica_attempts.
    cbn [infer_n_components as_int]. rewrite !decide_True by done.
    by rewrite retry_loop_nil.
  - unfold separate, factorise, factorise_nmf_sklearn, nmf_sklearn_attempts.
    cbn [infer_n_components as_int].
    rewrite decide_False, decide_True by done.
    by rewrite retry_loop_nil.
  - destruct (separate_nmf_convergence S k maxiter tol random_state maxtries
                w Hvalid) as (out & Hsep & _).
    by exists out.
Qed.

(** X4. When the first attempt of 'ica' converges, [separate] draws no
    random state and reports the [random_state] it was given, the
    iteration count of that attempt, and [converged = True]. *)
Theorem separate_first_attempt_converges (S : ndarray R) (k : nat)
    (maxiter : Z) (tol : R) (random_state maxtries : Z) (w : world) :
  valid_traces S k → (0 < maxtries)%Z →
  let ica := FastICA_fit k maxiter tol random_state (transpose S) in
  (ica_n_iter_ ica < maxiter)%Z →
  ∃ out,
    separate S "ica" (NInt k) maxiter tol random_state maxtries w =
      (Ok out, w) ∧
    out_convergence out !! "random_state" = Some (PInt random_state) ∧
    out_convergence out !! "iterations" = Some (PInt (ica_n_iter_ ica)) ∧
    out_convergence out !! "converged" = Some (PBool true).
Proof.
  intros Hvalid Hpos ica Hconv.
  destruct (separate_ica_convergence S k maxiter tol random_state maxtries w
              Hvalid Hpos)
    as (m & out & Hpol & Hsep & _ & Hrs & Hit & Hcv).
  destruct Hpol as (Hm & Hlen & Hseeds & Hworld & Hlast & _ & Hfail & _).
  assert (m = 1%nat) as ->.
  { destruct m as [|[|m]]; [lia | done |].
    rewrite Hseeds in Hfail.
    pose proof (length_draws (Datatypes.S (Datatypes.S m) - 1) w) as Hd.
    destruct (draws (Datatypes.S (Datatypes.S m) - 1) w).1 as [|d ds] eqn:Hds;
      [simpl in Hd; lia|].
    simpl in Hfail. apply Forall_cons_1 in Hfail as [Hfirst _].
    apply bool_decide_eq_false in Hfirst. fold ica in Hfirst. lia. }
  simpl in Hseeds, Hworld. rewrite Hseeds in Hlast. simpl in Hlast.
  exists out. rewrite Hworld in Hsep. split; [exact Hsep|].
  rewrite Hrs, Hit, Hcv, Hlast. fold ica.
  split_and!; [done | done |]. by rewrite bool_decide_eq_true_2.
Qed.

End more_separate.

Section worked_examples_more_separate.
Import example_libraries.

Lemma separate_unknown_method_witness :
  let S := mk_ndarray 2 2 [[2; 4]; [5; 7]] in
("pca" ∉ ["ica"; "nmf"; "nmf_sklearn"]) ∧
  separate S "pca" (NInt 1) 500 1 892 10 fresh_world =
    (Raise ValueError, fresh_world).
Proof.
  intros S.
  assert ("pca" ∉ ["ica"; "nmf"; "nmf_sklearn"]) as Hm.
  { rewrite !not_elem_of_cons. split_and!; try done. apply not_elem_of_nil. }
  split; [exact Hm|].
  apply (separate_unknown_method S "pca" (NInt 1) 500 1 892 10 fresh_world Hm).
Defined.

Lemma separate_without_tries_witness :
  let S := mk_ndarray 2 2 [[2; 4]; [5; 7]] in
  (0 ≤ 0)%Z ∧ valid_traces S 1 ∧
  separate S "ica" (NInt 1) 500 1 892 0 fresh_world =
    (Raise UnboundLocalError, fresh_world) ∧
  separate S "nmf_sklearn" (NInt 1) 500 1 892 0 fresh_world =
    (Raise UnboundLocalError, fresh_world) ∧
  ∃ out,
    separate S "nmf" (NInt 1) 500 1 892 0 fresh_world =
      (Ok out, (nimfa_Nmf (transpose S) 500 1 fresh_world).2).
Proof.
  intros S.
  assert (valid_traces S 1) as Hvalid.
  { split_and!; simpl; try lia. split; [done | by repeat constructor]. }
  split; [lia|]. split; [exact Hvalid|].
  apply (separate_without_tries S 1 500 1 892 0 fresh_world); [lia|exact Hvalid].
Defined.

Lemma separate_first_attempt_converges_witness :
  let S := mk_ndarray 2 2 [[2; 4]; [5; 7]] in
  let ica := FastICA_fit 1 500 1 1 (transpose S) in
  valid_traces S 1 ∧ (0 < 10)%Z ∧ (ica_n_iter_ ica < 500)%Z ∧
  ∃ out,
    separate S "ica" (NInt 1) 500 1 1 10 fresh_world = (Ok out, fresh_world) ∧
    out_convergence out !! "random_state" = Some (PInt 1) ∧
    out_convergence out !! "iterations" = Some (PInt (ica_n_iter_ ica)) ∧
    out_convergence out !! "converged" = Some (PBool true).
Proof.
  intros S ica.
  assert (valid_traces S 1) as Hvalid.
  { split_and!; simpl; try lia. split; [done | by repeat constructor]. }
  assert (ica_n_iter_ ica < 500)%Z as Hconv.
  { change (ica_n_iter_ ica) with (iterations 500 1 1).
    rewrite iterations_odd_seed; [lia | lra | reflexivity]. }
  split; [exact Hvalid|]. split; [lia|]. split; [exact Hconv|].
  apply (separate_first_attempt_converges S 1 500 1 1 10 fresh_world Hvalid);
    [lia | exact Hconv].
Defined.

End worked_examples_more_separate.

(** ** The scores of the components *)

Lemma head_le_sum (u : list R) (x : R) :
  Forall (λ y, 0 <= y) u → head u = Some x → 0 <= x <= np_sum u.
Proof.
  intros Hu Hx. destruct u as [|y u]; [done|]. injection Hx as ->.
  apply Forall_cons_1 in Hu as [Hx Hu]. pose proof (np_sum_nonneg u Hu).
  simpl. lra.
Qed.

(** The first entry of a normalised vector of non-negative weights is a
    fraction of the whole. *)
Lemma normalised_head_unit (u : list R) (x : R) :
  Forall (λ y, 0 <= y) u → head (normalised u) = Some x → 0 <= x <= 1.
Proof.
  intros Hu Hx. unfold normalised in Hx.
  destruct (decide (np_sum u ≠ 0)) as [Hs|Hs].
  - rewrite head_map in Hx. destruct (head u) as [y|] eqn:Hy; [|done].
    injection Hx as <-. destruct (head_le_sum u y Hu Hy) as [H0 H1].
    assert (0 < np_sum u) by lra.
    split.
    + apply Rmult_le_pos; [done|]. left. by apply Rinv_0_lt_compat.
    + apply (Rmult_le_reg_r (np_sum u)); [done|]. field_simplify; lra.
  - assert (np_sum u = 0) as Hz by (destruct (decide (np_sum u = 0)); tauto).
    pose proof (np_sum_zero_all_zero u Hu Hz) as Hall.
    destruct u as [|y u]; [done|]. injection Hx as <-.
    apply Forall_cons_1 in Hall as [-> _]. lra.
Qed.

(** X3. The scores by which [separate] ranks the components, row 0 of
    the normalised absolute mixing matrix, all lie between 0 and 1. *)
Theorem scores_in_unit_interval (A_sep : ndarray R) (k : nat)
    (scores : list R) :
  nd_wf A_sep → nd_cols A_sep = k →
  scores_of A_sep k = Ok scores →
  Forall (λ s, 0 <= s <= 1) scores.
Proof.
  intros Hwf Hk Hsc. unfold scores_of in Hsc.
  destruct (normalise_spec A_sep k Hwf) as (A & HA & HwA & HsA & Hcols); [lia|].
  rewrite HA, bind_ret in Hsc. unfold getrow in Hsc.
  destruct (nd_data A !! 0%nat) as [r|] eqn:Hrow; [|done].
  injection Hsc as <-. injection HsA as HrA HcA.
  apply Forall_forall. intros s Hs.
  apply list_elem_of_lookup in Hs as [c Hc].
  pose proof (lookup_lt_Some _ _ _ Hc) as Hlt.
  pose proof (Forall_lookup_1 _ _ _ _ (proj2 HwA) Hrow) as Hlen.
  simpl in Hlen.
  apply (normalised_head_unit (column c (nd_abs A_sep))).
  - rewrite column_nd_abs. apply Forall_Rabs_nonneg.
  - specialize (Hcols c). rewrite decide_True in Hcols by lia.
    rewrite <- Hcols, head_lookup, column_lookup, Hrow. simpl.
    by rewrite (nth_default_lookup _ _ _ Hc).
Qed.

Lemma scores_in_unit_interval_witness :
  let A_sep := mk_ndarray 2 2 [[0; -3]; [0; 1]] in
  ∃ scores,
    nd_wf A_sep ∧ nd_cols A_sep = 2%nat ∧
    scores_of A_sep 2 = Ok scores ∧
    Forall (λ s, 0 <= s <= 1) scores.
Proof.
  intros A_sep.
  assert (nd_wf A_sep) as Hwf by (split; [done | by repeat constructor]).
  destruct (normalise_spec A_sep 2 Hwf) as (A & HA & HwA & HsA & _);
    [simpl; lia|].
  destruct (getrow_Ok A 0 HwA) as (scores & Hrow & _);
    [injection HsA; simpl; lia|].
  assert (scores_of A_sep 2 = Ok scores) as Hsc
    by (unfold scores_of; by rewrite HA, bind_ret).
  exists scores. split; [exact Hwf|]. split; [reflexivity|].
  split; [exact Hsc|].
  apply (scores_in_unit_interval A_sep 2 scores Hwf eq_refl Hsc).
Defined.

(** ** The number of components *)

Lemma count_above_monotone (l : list R) (x y : R) :
  x <= y →
  (length (filter (λ r : R, (r > y)%R) l) ≤
   length (filter (λ r : R, (r > x)%R) l))%nat.
Proof.
  intros Hxy. induction l as [|r l IH]; [done|].
  rewrite !filter_cons.
  destruct (decide (r > y)) as [Hy|Hy], (decide (r > x)) as [Hx|Hx]; simpl;
    try lia.
  exfalso. apply Hx. lra.
Qed.

(** X5. A fractional [n_components] strictly between 0 and 1 is replaced
    by the number of PCA components whose explained-variance ratio is
    strictly above it. That number is at most the number of PCA
    components, and a larger threshold never gives more components. An
    integer is kept as given. *)
Theorem infer_n_components_monotone `{neuropil.Libraries} (S : ndarray R)
    (x y : R) :
  0 < x → x <= y → y < 1 →
  let ratios := PCA_explained_variance_ratio_ (transpose S) in
  let above := λ t : R, length (filter (λ r : R, (r > t)%R) ratios) in
  infer_n_components S (NFloat x) = NInt (above x) ∧
  infer_n_components S (NFloat y) = NInt (above y) ∧
  (above y ≤ above x)%nat ∧
  (above x ≤ length ratios)%nat ∧
  ∀ k, infer_n_components S (NInt k) = NInt k.
Proof.
  intros Hx Hxy Hy ratios above. unfold infer_n_components.
  rewrite !decide_True by (split; lra).
  split_and!; [done | done | | | done].
  - by apply count_above_monotone.
  - apply length_filter.
Qed.

Section worked_examples_components.
Import example_libraries.

Lemma infer_n_components_monotone_witness :
  let S := mk_ndarray 2 3 [[1; 3; 2]; [5; 7; 6]] in
  let ratios := PCA_explained_variance_ratio_ (transpose S) in
  let above := λ t : R, length (filter (λ r : R, (r > t)%R) ratios) in
  0 < 0.001 ∧ 0.001 <= 0.6 ∧ 0.6 < 1 ∧
  infer_n_components S (NFloat 0.001) = NInt (above 0.001) ∧
  infer_n_components S (NFloat 0.6) = NInt (above 0.6) ∧
  (above 0.6%R ≤ above 0.001%R)%nat ∧
  (above 0.001%R ≤ length ratios)%nat ∧
  ∀ k, infer_n_components S (NInt k) = NInt k.
Proof.
  intros S ratios above. split; [lra|]. split; [lra|]. split; [lra|].
  apply (infer_n_components_monotone S 0.001 0.6); lra.
Defined.

End worked_examples_components.

(** ** [subtract_pil] and [subtract_dict] *)

Section more_subtraction.
Context `{LibrariesOk}.

(** X6. When the neuropil estimate is constant over time, [subtract_pil]
    returns the signal unchanged, whatever gain the minimiser picks:
    subtracting [a * c] and adding back its mean cancel. *)
Theorem subtract_pil_constant_neuropil (sig : list R) (c : R)
    (lower_bound upper_bound : R) :
  sig ≠ [] → lower_bound <= upper_bound →
  ∃ a,
    subtract_pil sig (replicate (length sig) c) lower_bound upper_bound =
      Ok (sig, a).
Proof.
  intros Hne Hle.
  destruct (subtract_pil_Ok sig (replicate (length sig) c) lower_bound
              upper_bound) as (a & _ & _ & ->);
    [by rewrite length_replicate | done |].
  exists a. do 2 f_equal.
  assert (INR (length sig) ≠ 0) as Hn.
  { apply not_0_INR. by destruct sig. }
  assert (np_mean (vscale a (replicate (length sig) c)) = a * c) as ->.
  { unfold np_mean. rewrite np_sum_vscale, length_vscale, length_replicate.
    assert (np_sum (replicate (length sig) c) = INR (length sig) * c) as ->.
    { clear. induction sig as [|x sig IH]; [simpl; lra|].
      change (length (x :: sig)) with (Datatypes.S (length sig)).
      rewrite S_INR. simpl. rewrite IH. lra. }
    by field. }
  clear Hne Hn. unfold vshift, vsub, vscale.
  induction sig as [|x sig IH]; [done|]. simpl. f_equal; [lra | exact IH].
Qed.

End more_subtraction.

Section worked_examples_more_subtraction.
Import example_libraries.

Lemma subtract_pil_constant_neuropil_witness :
  let sig := [4; 6; 5] in
  sig ≠ [] ∧ 0 <= 1.5 ∧
  ∃ a, subtract_pil sig (replicate (length sig) 7) 0 1.5 = Ok (sig, a).
Proof.
  intros sig. split; [done|]. split; [lra|].
  apply (subtract_pil_constant_neuropil sig 7 0 1.5); [done | lra].
Defined.

End worked_examples_more_subtraction.

(** A loop raises [e] when one of its passes does whatever state reaches
    it, and every pass before it keeps the invariant or raises [e]
    itself. *)
Lemma for_each_raise {X St} (P : St → Prop) (body : X → St → result St)
    (xs : list X) (x : X) (s : St) (e : exn) :
  P s → x ∈ xs →
  (∀ y t, y ∈ xs → P t →
          body y t = Raise e ∨ ∃ t', body y t = Ok t' ∧ P t') →
  (∀ t, P t → body x t = Raise e) →
  for_each xs body s = Raise e.
Proof.
  intros Hs Hx Hstep Hraise. revert s Hs.
  induction xs as [|y xs IH]; intros s Hs; [by apply elem_of_nil in Hx|].
  simpl. apply elem_of_cons in Hx as [<-|Hx]; [by rewrite Hraise|].
  destruct (Hstep y s) as [-> | (t' & -> & Ht')]; [by left | done | done |].
  simpl. apply IH; [done | | done].
  intros z t Hz. apply Hstep. by right.
Qed.

(** Two loop bodies that agree on the items of the list give one loop. *)
Lemma for_each_ext_in {X St} (xs : list X) (body body' : X → St → result St)
    (s : St) :
  (∀ x t, x ∈ xs → body x t = body' x t) →
  for_each xs body s = for_each xs body' s.
Proof.
  revert s. induction xs as [|x xs IH]; intros s Hext; simpl; [done|].
  rewrite Hext by (by left). destruct (body' x s); simpl; [|done].
  apply IH. intros y t Hy. apply Hext. by right.
Qed.

(** What a loop returns satisfies every property that its passes keep. *)
Lemma for_each_preserved {X St} (P : St → Prop) (body : X → St → result St)
    (xs : list X) (s s' : St) :
  P s → (∀ x t t', body x t = Ok t' → P t → P t') →
  for_each xs body s = Ok s' → P s'.
Proof.
  intros Hs Hstep. revert s Hs.
  induction xs as [|x xs IH]; intros s Hs; simpl.
  - by intros [= <-].
  - destruct (body x s) as [t|e] eqn:Hb; simpl; [|done].
    apply IH. by eapply Hstep.
Qed.

Section more_subtraction_dict.
Context `{LibrariesOk}.

(** X7. [subtract_dict] indexes [S] by the integers from [n_noncell] to
    [len(S) - 1]: when one of them is not a key of [S] (the entries that
    are there having a column 0), it raises [KeyError] and returns
    nothing, whatever the other entries hold. *)
Theorem subtract_dict_missing_key (S : gmap nat (ndarray R))
    (n_noncell j : nat) :
  (n_noncell ≤ j < size S)%nat → S !! j = None →
  (∀ i M, (n_noncell ≤ i < size S)%nat → S !! i = Some M →
          (0 < nd_cols M)%nat) →
  subtract_dict S n_noncell = Raise KeyError.
Proof.
  intros Hj Hmiss Hcols. unfold subtract_dict.
  apply (for_each_raise (λ _, True) _ _ j); [done | | |].
  - apply elem_of_seq. lia.
  - intros i [Ssub a] Hi _. apply elem_of_seq in Hi.
    destruct (S !! i) as [M|] eqn:HM.
    + right. destruct (subtract_entry_Ok S i M Ssub a HM) as (s & g & _ & ->);
        [apply (Hcols i M); [lia | done]|]. by eexists.
    + left. unfold subtract_entry. by rewrite HM.
  - intros [Ssub a] _. unfold subtract_entry. by rewrite Hmiss.
Qed.

(** X15. [subtract_dict] never reads the entries below [n_noncell]: two
    dictionaries of one size that agree from [n_noncell] on give the same
    result, be it a pair of dictionaries or an exception. *)
Theorem subtract_dict_ignores_noncells (S S' : gmap nat (ndarray R))
    (n_noncell : nat) :
  size S = size S' →
  (∀ i, (n_noncell ≤ i)%nat → S !! i = S' !! i) →
  subtract_dict S n_noncell = subtract_dict S' n_noncell.
Proof.
  intros Hsize Hagree. unfold subtract_dict. rewrite Hsize.
  apply for_each_ext_in. intros i [Ssub a] Hi. apply elem_of_seq in Hi.
  unfold subtract_entry. rewrite Hagree by lia. done.
Qed.

End more_subtraction_dict.

Section worked_examples_more_subtraction_dict.
Import example_libraries.

(** The dictionary has the keys 0 and 2: [len(S)] is 2, and key 1 is
    asked for. *)
Lemma subtract_dict_missing_key_witness :
  let M0 := mk_ndarray 3 3 [[4; 1; 3]; [6; 3; 5]; [5; 2; 2]] in
  let M2 := mk_ndarray 3 3 [[9; 2; 4]; [8; 1; 1]; [7; 3; 5]] in
  let S : gmap nat (ndarray R) := <[0%nat := M0]> (<[2%nat := M2]> ∅) in
  (0 ≤ 1 < size S)%nat ∧ S !! 1%nat = None ∧
  (∀ i M, (0 ≤ i < size S)%nat → S !! i = Some M → (0 < nd_cols M)%nat) ∧
  subtract_dict S 0 = Raise KeyError.
Proof.
  intros M0 M2 S.
  assert (size S = 2%nat) as Hsize.
  { unfold S. rewrite !map_size_insert_None; [by rewrite map_size_empty|..].
    - apply lookup_empty.
    - rewrite lookup_insert_ne by done. apply lookup_empty. }
  assert (0 ≤ 1 < size S)%nat as Hj by (rewrite Hsize; lia).
  assert (S !! 1%nat = None) as Hmiss.
  { unfold S. rewrite !lookup_insert_ne by done. apply lookup_empty. }
  assert (∀ i M, (0 ≤ i < size S)%nat → S !! i = Some M → (0 < nd_cols M)%nat)
    as Hcols.
  { intros i M _ Hi. unfold S in Hi.
    apply lookup_insert_Some in Hi as [[_ <-]|[_ Hi]]; [simpl; lia|].
    apply lookup_insert_Some in Hi as [[_ <-]|[_ Hi]]; [simpl; lia|].
    by rewrite lookup_empty in Hi. }
  split; [exact Hj|]. split; [exact Hmiss|]. split; [exact Hcols|].
  apply (subtract_dict_missing_key S 0 1 Hj Hmiss Hcols).
Defined.

(** Two dictionaries that differ in the non-cell entry 0 only. *)
Lemma subtract_dict_ignores_noncells_witness :
  let M0 := mk_ndarray 3 3 [[4; 1; 3]; [6; 3; 5]; [5; 2; 2]] in
  let M0' := mk_ndarray 1 1 [[0]] in
  let M1 := mk_ndarray 3 3 [[9; 2; 4]; [8; 1; 1]; [7; 3; 5]] in
  let S : gmap nat (ndarray R) := <[0%nat := M0]> (<[1%nat := M1]> ∅) in
  let S' : gmap nat (ndarray R) := <[0%nat := M0']> (<[1%nat := M1]> ∅) in
  size S = size S' ∧
  (∀ i, (1 ≤ i)%nat → S !! i = S' !! i) ∧
  subtract_dict S 1 = subtract_dict S' 1.
Proof.
  intros M0 M0' M1 S S'.
  assert (size S = size S') as Hsize.
  { unfold S, S'. rewrite !map_size_insert_None; [done|..];
      by rewrite ?lookup_insert_ne, ?lookup_empty. }
  assert (∀ i, (1 ≤ i)%nat → S !! i = S' !! i) as Hagree.
  { intros i Hi. unfold S, S'. rewrite !(lookup_insert_ne _ 0%nat) by lia.
    done. }
  split; [exact Hsize|]. split; [exact Hagree|].
  apply (subtract_dict_ignores_noncells S S' 1 Hsize Hagree).
Defined.

End worked_examples_more_subtraction_dict.

(** ** What [separate] reports and what it ignores *)

Section more_convergence.
Context `{neuropil.Libraries}.

(** X13. Whenever [separate] returns, the convergence dictionary has
    exactly the keys [max_iterations], [random_state], [iterations] and
    [converged], and [max_iterations] is the [maxiter] given. The two NMF
    methods report the string 'not yet implemented' as [random_state], and
    'nmf_sklearn' reports it as [iterations] and [converged] too, whatever
    the fit did. *)
Theorem separate_convergence_keys (S : ndarray R) (sep_method : string)
    (n_components : n_components_arg) (maxiter : Z) (tol : R)
    (random_state maxtries : Z) (w w' : world) (out : separated) :
  separate S sep_method n_components maxiter tol random_state maxtries w =
    (Ok out, w') →
  dom (out_convergence out) =
    ({["max_iterations"; "random_state"; "iterations"; "converged"]}
       : gset string) ∧
  out_convergence out !! "max_iterations" = Some (PInt maxiter) ∧
  (sep_method ≠ "ica" →
   out_convergence out !! "random_state" =
     Some (PStr "not yet implemented")) ∧
  (sep_method = "nmf_sklearn" →
   out_convergence out !! "iterations" = Some (PStr "not yet implemented") ∧
   out_convergence out !! "converged" = Some (PStr "not yet implemented")).
Proof.
  unfold separate. intros Hsep.
  destruct (factorise S sep_method (infer_n_components S n_components)
              maxiter tol random_state maxtries w) as [[f|e] w''] eqn:Hf;
    [|done].
  rewrite bind_ret in Hsep.
  destruct (as_int (infer_n_components S n_components)) as [k|e]; [|done].
  rewrite bind_ret in Hsep.
  destruct (match_components S sep_method k (f_S_sep f) (f_A_sep f))
    as [M|e]; [|done].
  rewrite bind_ret in Hsep. injection Hsep as <- _. simpl.
  assert (sep_method ∈ ["ica"; "nmf"; "nmf_sklearn"]) as Hm.
  { unfold factorise in Hf.
    destruct (decide (sep_method = "ica")) as [->|?]; [by left|].
    destruct (decide (sep_method = "nmf_sklearn")) as [->|?];
      [right; right; by left|].
    destruct (decide (sep_method = "nmf")) as [->|?]; [right; by left|].
    done. }
  apply known_method_cases in Hm as [-> | [-> | ->]];
    unfold convergence_info; simpl;
    (split; [rewrite !dom_insert_L, dom_empty_L; set_solver|]);
    done.
Qed.

(** X16. Method 'nmf' makes no use of [tol], [random_state] and
    [maxtries]: changing them changes neither what [separate] returns nor
    the state of the random generator it leaves. *)
Theorem separate_nmf_ignores_seed (S : ndarray R)
    (n_components : n_components_arg) (maxiter : Z) (tol tol' : R)
    (random_state random_state' maxtries maxtries' : Z) (w : world) :
  separate S "nmf" n_components maxiter tol random_state maxtries w =
  separate S "nmf" n_components maxiter tol' random_state' maxtries' w.
Proof.
  unfold separate, factorise. simpl.
  destruct (as_int (infer_n_components S n_components)) as [k|e]; [|done].
  unfold factorise_nmf.
  destruct (nimfa_Nmf (transpose S) maxiter k w) as [nmf_fit w']. done.
Qed.

End more_convergence.

Section worked_examples_more_convergence.
Import example_libraries.

Lemma separate_convergence_keys_witness :
  let S := mk_ndarray 2 3 [[1; 3; 2]; [5; 7; 6]] in
  ∃ out w',
    separate S "nmf_sklearn" (NInt 2) 10 1 1 3 fresh_world = (Ok out, w') ∧
    dom (out_convergence out) =
      ({["max_iterations"; "random_state"; "iterations"; "converged"]}
         : gset string) ∧
    out_convergence out !! "max_iterations" = Some (PInt 10) ∧
    ("nmf_sklearn" ≠ "ica" →
     out_convergence out !! "random_state" =
       Some (PStr "not yet implemented")) ∧
    ("nmf_sklearn" = "nmf_sklearn" →
     out_convergence out !! "iterations" =
       Some (PStr "not yet implemented") ∧
     out_convergence out !! "converged" = Some (PStr "not yet implemented")).
Proof.
  intros S.
  destruct (separate_nmf_sklearn_convergence S 2 10 1 1 3 fresh_world)
    as (m & out & _ & Hsep & _); [|lia|].
  { split_and!; simpl; try lia. split; [done|]. by repeat constructor. }
  exists out, (ls_world (nmf_sklearn_attempts S 2 10 1 1 3 fresh_world)).
  split; [exact Hsep|].
  exact (separate_convergence_keys S "nmf_sklearn" (NInt 2) 10 1 1 3
           fresh_world _ out Hsep).
Defined.

End worked_examples_more_convergence.

(** ** The image handlers on inputs they reject *)

Section more_traces.
Import extraction.

Lemma tifffile_extracttraces_mismatch (data : array3)
    (masks : list (ndarray bool)) (j : nat) (m : ndarray bool) :
  array3_wf data →
  masks !! j = Some m → np_shape m ≠ (a3_y data, a3_x data) →
  DataHandlerTifffile.extracttraces data masks = Raise IndexError.
Proof.
  intros [Hlen _] Hm Hshape. unfold DataHandlerTifffile.extracttraces.
  apply (for_each_raise
    (λ out, nd_wf out ∧ np_shape out = (length masks, a3_frames data))
    _ _ j).
  - split; [apply np_zeros_wf | done].
  - apply elem_of_seq. apply lookup_lt_Some in Hm. lia.
  - intros i out Hi [Hwo Hso]. apply elem_of_seq in Hi.
    destruct (lookup_lt_is_Some_2 masks i) as [mi Hmi]; [lia|].
    rewrite (index_Ok _ _ _ Hmi), bind_ret. unfold bool_index3.
    destruct (decide (np_shape mi = (a3_y data, a3_x data))); [|by left].
    right. rewrite bind_ret. injection Hso as Hro Hco.
    destruct (setrow_spec out i (map np_mean (map (masked mi) (a3_data data))))
      as (out' & -> & Hwo' & Hso' & _);
      [done | lia | rewrite !length_map; lia |].
    exists out'. split; [done|]. split; [done|].
    rewrite Hso'. unfold np_shape. by rewrite Hro, Hco.
  - intros out _. rewrite (index_Ok _ _ _ Hm), bind_ret. unfold bool_index3.
    by rewrite decide_False.
Qed.

Lemma extract_frame_mismatch (curframe : ndarray R)
    (masks : list (ndarray bool)) (f n j : nat) (m : ndarray bool)
    (out : ndarray R) :
  nd_wf out → np_shape out = (length masks, n) → (f < n)%nat →
  masks !! j = Some m → np_shape m ≠ np_shape curframe →
  DataHandlerPillow.extract_frame curframe masks f out = Raise IndexError.
Proof.
  intros Hwo Hso Hf Hm Hshape. unfold DataHandlerPillow.extract_frame.
  apply (for_each_raise
    (λ out, nd_wf out ∧ np_shape out = (length masks, n)) _ _ j).
  - done.
  - apply elem_of_seq. apply lookup_lt_Some in Hm. lia.
  - intros i o Hi [Hwo' Hso']. apply elem_of_seq in Hi.
    destruct (lookup_lt_is_Some_2 masks i) as [mi Hmi]; [lia|].
    rewrite (index_Ok _ _ _ Hmi), bind_ret. unfold bool_index.
    destruct (decide (np_shape mi = np_shape curframe)); [|by left].
    right. rewrite bind_ret. injection Hso' as Hro Hco.
    destruct (setitem_spec o i f (np_mean (masked mi curframe)))
      as (o' & -> & Hwo'' & Hso'' & _); [done | lia | lia |].
    exists o'. split; [done|]. split; [done|].
    rewrite Hso''. unfold np_shape. by rewrite Hro, Hco.
  - intros o _. rewrite (index_Ok _ _ _ Hm), bind_ret. unfold bool_index.
    by rewrite decide_False.
Qed.

(** X9. A mask whose shape is not the frame shape makes [extracttraces]
    of both handlers raise [IndexError], wherever it stands in the list
    and whatever the other masks are: no trace matrix is returned. *)
Theorem extracttraces_mask_shape_mismatch (data : array3)
    (image : PIL_Image) (masks : list (ndarray bool)) (j : nat)
    (m : ndarray bool) :
  array3_wf data → same_movie data image → (0 < a3_frames data)%nat →
  masks !! j = Some m → np_shape m ≠ (a3_y data, a3_x data) →
  DataHandlerTifffile.extracttraces data masks = Raise IndexError ∧
  DataHandlerPillow.extracttraces image masks = Raise IndexError.
Proof.
  intros Hwf (Hsame & Hn & Hsize) Hpos Hm Hshape.
  split; [by eapply tifffile_extracttraces_mismatch|].
  destruct Hwf as [Hlen Hframes].
  unfold DataHandlerPillow.extracttraces, seek.
  rewrite decide_True, bind_ret by lia. simpl im_n_frames. rewrite Hn.
  destruct (a3_frames data) as [|n] eqn:Hfr; [lia|].
  destruct (lookup_lt_is_Some_2 (a3_data data) 0) as [fr Hframe]; [lia|].
  pose proof (Forall_lookup_1 _ _ _ _ Hframes Hframe) as [_ Hsfr].
  simpl in Hsfr.
  change (range (Datatypes.S n)) with (0%nat :: seq 1 n).
  cbn [for_each]. rewrite decide_True by (simpl; lia). rewrite bind_ret.
  unfold asarray. simpl im_frames. simpl im_tell.
  rewrite Hsame, Hframe, bind_ret.
  rewrite (extract_frame_mismatch fr masks 0 (Datatypes.S n) j m);
    [done | apply np_zeros_wf | done | lia | done |].
  by rewrite Hsfr.
Qed.

(** What the streaming handler returns is the handle it was given, up to
    its position. *)
Lemma pillow_extracttraces_same_handle (image image' : PIL_Image)
    (masks : list (ndarray bool)) (out : ndarray R) :
  DataHandlerPillow.extracttraces image masks = Ok (out, image') →
  im_size image' = im_size image ∧
  im_n_frames image' = im_n_frames image ∧
  im_frames image' = im_frames image.
Proof.
  unfold DataHandlerPillow.extracttraces. intros Hx.
  apply bind_Ok in Hx as (d0 & Hseek & Hx).
  apply bind_Ok in Hx as ([d1 o1] & Hloop & Hx). injection Hx as <- <-.
  unfold seek in Hseek. destruct (decide _); [|done].
  injection Hseek as <-. simpl in Hloop.
  apply (for_each_preserved
    (λ st : PIL_Image * ndarray R,
       im_size st.1 = im_size image ∧
       im_n_frames st.1 = im_n_frames image ∧
       im_frames st.1 = im_frames image)) in Hloop; [done | done |].
  intros f [d o] [d' o'] Hbody (Hs & Hn & Hf).
  apply bind_Ok in Hbody as (d2 & Hseek & Hbody).
  apply bind_Ok in Hbody as (fr & _ & Hbody).
  apply bind_Ok in Hbody as (o2 & _ & Hbody). injection Hbody as <- <-.
  unfold seek in Hseek. destruct (decide _); [|done].
  by injection Hseek as <-.
Qed.

(** X10. [DataHandlerPillow.extracttraces] moves the handle it is given:
    afterwards the handle points at the last frame and is otherwise
    unchanged. The traces do not depend on where the handle pointed
    before, so that a second call on the moved handle returns the same
    traces. *)
Theorem pillow_extracttraces_rewinds (data : array3) (image : PIL_Image)
    (masks : list (ndarray bool)) :
  array3_wf data → same_movie data image → (0 < a3_frames data)%nat →
  Forall (λ m, np_shape m = (a3_y data, a3_x data)) masks →
  ∃ traces image',
    DataHandlerPillow.extracttraces image masks = Ok (traces, image') ∧
    image' = mk_PIL_Image (im_size image) (im_n_frames image)
               (im_frames image) (im_n_frames image - 1) ∧
    DataHandlerPillow.extracttraces image' masks = Ok (traces, image') ∧
    ∀ t, DataHandlerPillow.extracttraces
           (mk_PIL_Image (im_size image) (im_n_frames image)
              (im_frames image) t) masks = Ok (traces, image').
Proof.
  intros Hwf Hsame Hpos Hmasks.
  destruct (pillow_extracttraces_spec data image masks Hwf Hsame Hpos Hmasks)
    as (image' & Hx & _ & Htell).
  destruct (pillow_extracttraces_same_handle _ _ _ _ Hx) as (Hs & Hn & Hf).
  destruct Hsame as (_ & Hnf & _).
  assert (image' = mk_PIL_Image (im_size image) (im_n_frames image)
                     (im_frames image) (im_n_frames image - 1)) as Himage'.
  { destruct image'. simpl in *. by rewrite Hs, Hn, Hf, Htell, Hnf. }
  assert (∀ t, DataHandlerPillow.extracttraces
                 (mk_PIL_Image (im_size image) (im_n_frames image)
                    (im_frames image) t) masks = Ok (traces_of data masks, image'))
    as Hany.
  { intros t. rewrite <- Hx. by destruct image. }
  exists (traces_of data masks), image'.
  split; [exact Hx|]. split; [exact Himage'|]. split; [|exact Hany].
  rewrite Himage' at 1. apply Hany.
Qed.

End more_traces.

Section more_rois.
Import extraction.
Context `{Roitools}.

(** X11. A sequence of ROIs that is empty, or whose first element has
    fewer than two dimensions, makes [rois2masks] of both handlers raise
    [IndexError] (at [rois[0]], or at [np.shape(rois[0])[1]]), whether it
    is given as a sequence or read from a path. *)
Theorem rois2masks_too_few_dimensions (data : array3) (image : PIL_Image)
    (rois : list array_like) :
  (∀ r0, head rois = Some r0 → (length (al_shape r0) < 2)%nat) →
  DataHandlerTifffile.rois2masks (RoisSequence rois) data =
    Raise IndexError ∧
  DataHandlerPillow.rois2masks (RoisSequence rois) image =
    Raise IndexError ∧
  ∀ path, readrois path = rois →
    DataHandlerTifffile.rois2masks (RoisPath path) data =
      Raise IndexError ∧
    DataHandlerPillow.rois2masks (RoisPath path) image = Raise IndexError.
Proof.
  intros Hflat.
  assert (DataHandlerTifffile.rois2masks (RoisSequence rois) data =
            Raise IndexError ∧
          DataHandlerPillow.rois2masks (RoisSequence rois) image =
            Raise IndexError) as [Ht Hp].
  { destruct rois as [|r0 rois]; [done|].
    specialize (Hflat r0 eq_refl).
    unfold DataHandlerTifffile.rois2masks, DataHandlerPillow.rois2masks,
      index. simpl.
    destruct (al_shape r0) as [|d0 [|d1 dims]]; simpl in *; [done | done | lia]. }
  split; [exact Ht|]. split; [exact Hp|].
  intros path Hpath. split.
  - rewrite <- Ht. unfold DataHandlerTifffile.rois2masks. by rewrite Hpath.
  - rewrite <- Hp. unfold DataHandlerPillow.rois2masks. by rewrite Hpath.
Qed.

(** X12. On the same movie the two handlers convert ROIs alike:
    [rois2masks] gives the same masks, or raises the same exception,
    whatever [rois] is. *)
Theorem rois2masks_agree (data : array3) (image : PIL_Image)
    (rois : rois_arg) :
  same_movie data image →
  DataHandlerTifffile.rois2masks rois data =
  DataHandlerPillow.rois2masks rois image.
Proof.
  intros (_ & _ & Hsize).
  unfold DataHandlerTifffile.rois2masks, DataHandlerPillow.rois2masks.
  by rewrite Hsize.
Qed.

End more_rois.

Section worked_examples_more_extraction.
Import extraction example_libraries.

(** A movie of two frames, 2 by 2 pixels; the second mask has three
    columns. *)
Lemma extracttraces_mask_shape_mismatch_witness :
  let frame0 := mk_ndarray 2 2 [[10; 12]; [14; 16]] in
  let frame1 := mk_ndarray 2 2 [[20; 22]; [24; 26]] in
  let data := mk_array3 2 2 2 [frame0; frame1] in
  let image := mk_PIL_Image (2, 2)%nat 2 [frame0; frame1] 0 in
  let good := mk_ndarray 2 2 [[true; false]; [false; true]] in
  let wide := mk_ndarray 2 3 [[true; false; true]; [false; true; true]] in
  let masks := [good; wide] in
  array3_wf data ∧ same_movie data image ∧ (0 < a3_frames data)%nat ∧
  masks !! 1%nat = Some wide ∧ np_shape wide ≠ (a3_y data, a3_x data) ∧
  DataHandlerTifffile.extracttraces data masks = Raise IndexError ∧
  DataHandlerPillow.extracttraces image masks = Raise IndexError.
Proof.
  intros frame0 frame1 data image good wide masks.
  assert (array3_wf data) as Hwf.
  { split; [done|]. repeat constructor. }
  assert (same_movie data image) as Hsame by done.
  assert (0 < a3_frames data)%nat as Hpos by (simpl; lia).
  assert (masks !! 1%nat = Some wide) as Hm by done.
  assert (np_shape wide ≠ (a3_y data, a3_x data)) as Hshape by done.
  split; [exact Hwf|]. split; [exact Hsame|]. split; [exact Hpos|].
  split; [exact Hm|]. split; [exact Hshape|].
  apply (extracttraces_mask_shape_mismatch data image masks 1 wide
           Hwf Hsame Hpos Hm Hshape).
Defined.

(** A handle left on frame 1 of a movie of two frames. *)
Lemma pillow_extracttraces_rewinds_witness :
  let frame0 := mk_ndarray 2 2 [[10; 12]; [14; 16]] in
  let frame1 := mk_ndarray 2 2 [[20; 22]; [24; 26]] in
  let data := mk_array3 2 2 2 [frame0; frame1] in
  let image := mk_PIL_Image (2, 2)%nat 2 [frame0; frame1] 1 in
  let masks := [mk_ndarray 2 2 [[true; false]; [false; true]]] in
  array3_wf data ∧ same_movie data image ∧ (0 < a3_frames data)%nat ∧
  Forall (λ m, np_shape m = (a3_y data, a3_x data)) masks ∧
  ∃ traces image',
    DataHandlerPillow.extracttraces image masks = Ok (traces, image') ∧
    image' = mk_PIL_Image (im_size image) (im_n_frames image)
               (im_frames image) (im_n_frames image - 1) ∧
    DataHandlerPillow.extracttraces image' masks = Ok (traces, image') ∧
    ∀ t, DataHandlerPillow.extracttraces
           (mk_PIL_Image (im_size image) (im_n_frames image)
              (im_frames image) t) masks = Ok (traces, image').
Proof.
  intros frame0 frame1 data image masks.
  assert (array3_wf data) as Hwf.
  { split; [done|]. repeat constructor. }
  assert (same_movie data image) as Hsame by done.
  assert (0 < a3_frames data)%nat as Hpos by (simpl; lia).
  assert (Forall (λ m, np_shape m = (a3_y data, a3_x data)) masks)
    as Hmasks by (by repeat constructor).
  split; [exact Hwf|]. split; [exact Hsame|]. split; [exact Hpos|].
  split; [exact Hmasks|].
  apply (pillow_extracttraces_rewinds data image masks Hwf Hsame Hpos Hmasks).
Defined.

(** A list of flat coordinate vectors. *)
Lemma rois2masks_too_few_dimensions_witness :
  let frame := mk_ndarray 2 2 [[10; 12]; [14; 16]] in
  let data := mk_array3 1 2 2 [frame] in
  let image := mk_PIL_Image (2, 2)%nat 1 [frame] 0 in
  let rois := [mk_array_like [4]%nat [0; 0; 1; 1]] in
  (∀ r0, head rois = Some r0 → (length (al_shape r0) < 2)%nat) ∧
  DataHandlerTifffile.rois2masks (RoisSequence rois) data =
    Raise IndexError ∧
  DataHandlerPillow.rois2masks (RoisSequence rois) image =
    Raise IndexError ∧
  ∀ path, readrois path = rois →
    DataHandlerTifffile.rois2masks (RoisPath path) data =
      Raise IndexError ∧
    DataHandlerPillow.rois2masks (RoisPath path) image = Raise IndexError.
Proof.
  intros frame data image rois.
  assert (∀ r0, head rois = Some r0 → (length (al_shape r0) < 2)%nat)
    as Hflat.
  { intros r0 [= <-]. simpl. lia. }
  split; [exact Hflat|].
  apply (rois2masks_too_few_dimensions data image rois Hflat).
Defined.

(** A mask of the frame shape, 3 by 4. *)
Lemma rois2masks_agree_witness :
  let frame := mk_ndarray 3 4 [[1; 2; 3; 4]; [5; 6; 7; 8]; [9; 10; 11; 12]] in
  let data := mk_array3 1 3 4 [frame] in
  let image := mk_PIL_Image (4, 3)%nat 1 [frame] 0 in
  let rois :=
    RoisSequence
      [mk_array_like [3; 4]%nat [0; 1; 1; 0; 0; 1; 1; 0; 0; 0; 0; 0]] in
  same_movie data image ∧
  DataHandlerTifffile.rois2masks rois data =
  DataHandlerPillow.rois2masks rois image.
Proof.
  intros frame data image rois.
  assert (same_movie data image) as Hsame by done.
  split; [exact Hsame|].
  apply (rois2masks_agree data image rois Hsame).
Defined.

End worked_examples_more_extraction.

(** ** The mean image *)

Section mean_image.
Import extraction.

Lemma stretch_id {A} (n : nat) (l : list A) : length l = n → stretch n l = l.
Proof. intros <-. by destruct l as [|x [|y l]]. Qed.

Lemma map_stretch_id (n : nat) (rows : list (list R)) :
  Forall (λ r, length r = n) rows → map (stretch n) rows = rows.
Proof.
  induction 1 as [|r rows Hr _ IH]; simpl; [done|].
  by rewrite stretch_id, IH.
Qed.

Lemma map_nth_seq_rows (rows : list (list R)) :
  map (λ i, nth i rows []) (seq 0 (length rows)) = rows.
Proof.
  apply list_eq. intros i. rewrite list_lookup_fmap.
  destruct (decide (i < length rows)%nat) as [Hi|Hi].
  - rewrite lookup_seq_lt by done. simpl.
    destruct (lookup_lt_is_Some_2 rows i Hi) as [r Hr].
    rewrite Hr. f_equal. by apply nth_lookup_Some with (d := []) in Hr.
  - rewrite lookup_seq_ge by lia. symmetry. apply lookup_ge_None. lia.
Qed.

(** A well-formed frame is the table of its pixels. *)
Lemma nd_data_pixels (frame : ndarray R) (y x : nat) :
  nd_wf frame → np_shape frame = (y, x) →
  nd_data frame =
    map (λ i, map (λ j, pixel frame i j) (seq 0 x)) (seq 0 y).
Proof.
  intros [Hl Hr] [= <- <-].
  rewrite <- (map_nth_seq_rows (nd_data frame)) at 1. rewrite Hl.
  apply map_ext_in. intros i Hi. apply in_seq in Hi.
  destruct (lookup_lt_is_Some_2 (nd_data frame) i) as [r Hrow]; [lia|].
  pose proof (Forall_lookup_1 _ _ _ _ Hr Hrow) as Hlen. simpl in Hlen.
  unfold pixel. rewrite (nth_lookup_Some _ _ [] _ Hrow).
  by rewrite <- Hlen, map_nth_seq.
Qed.

Lemma zip_with_map_same {A B C D} (f : B → C → D) (g : A → B) (h : A → C)
    (l : list A) :
  zip_with f (map g l) (map h l) = map (λ a, f (g a) (h a)) l.
Proof. induction l as [|a l IH]; simpl; [done | by rewrite IH]. Qed.

Lemma sum_image_nil (y x : nat) :
  sum_image [] y x = replicate y (replicate x 0).
Proof.
  unfold sum_image. simpl.
  assert (∀ {A B} (c : B) (l : list A),
            map (λ _, c) l = replicate (length l) c) as Hconst.
  { intros A B c l. induction l as [|a l IH]; simpl; [done | by rewrite IH]. }
  by rewrite !Hconst, !length_seq.
Qed.

Lemma sum_image_snoc (frames : list (ndarray R)) (frame : ndarray R)
    (y x : nat) :
  nd_wf frame → np_shape frame = (y, x) →
  zip_with (zip_with Rplus) (sum_image frames y x) (nd_data frame) =
  sum_image (frames ++ [frame]) y x.
Proof.
  intros Hwf Hshape. rewrite (nd_data_pixels frame y x Hwf Hshape) at 1.
  unfold sum_image. rewrite zip_with_map_same.
  apply map_ext. intros i. rewrite zip_with_map_same.
  apply map_ext. intros j. rewrite map_app, np_sum_app. simpl. lra.
Qed.

Lemma length_sum_image (frames : list (ndarray R)) (y x : nat) :
  length (sum_image frames y x) = y ∧
  Forall (λ r, length r = x) (sum_image frames y x).
Proof.
  unfold sum_image. split; [by rewrite length_map, length_seq|].
  apply Forall_map, Forall_forall. intros i _. simpl.
  by rewrite length_map, length_seq.
Qed.

(** Adding a frame of the image shape to the sum of the frames before
    it. *)
Lemma nd_iadd_sum_image (frames : list (ndarray R)) (frame : ndarray R)
    (y x : nat) :
  nd_wf frame → np_shape frame = (y, x) →
  nd_iadd (mk_ndarray y x (sum_image frames y x)) frame =
    Ok (mk_ndarray y x (sum_image (frames ++ [frame]) y x)).
Proof.
  intros Hwf Hshape. pose proof Hwf as [Hl Hr].
  injection Hshape as Hrows Hcols.
  unfold nd_iadd. simpl. rewrite decide_True by (split; by left).
  do 2 f_equal.
  rewrite map_stretch_id by (by rewrite <- Hcols).
  rewrite stretch_id by lia.
  apply sum_image_snoc; [done|]. unfold np_shape. by rewrite Hrows, Hcols.
Qed.

(** X8. On the same movie with at least one frame, [getmean] of the two
    handlers returns the same image, shaped like a frame: each pixel is
    the mean of that pixel over the frames. The streaming handler gets
    there by summing the frames and dividing by their number, and leaves
    the handle on the last frame. *)
Theorem getmean_agree (data : array3) (image : PIL_Image) :
  array3_wf data → same_movie data image → (0 < a3_frames data)%nat →
  ∃ mean image',
    DataHandlerTifffile.getmean data = mean ∧
    DataHandlerPillow.getmean image = Ok (mean, image') ∧
    image' = mk_PIL_Image (im_size image) (im_n_frames image)
               (im_frames image) (im_n_frames image - 1) ∧
    nd_wf mean ∧ np_shape mean = (a3_y data, a3_x data) ∧
    ∀ i j, (i < a3_y data)%nat → (j < a3_x data)%nat →
      entry mean i j =
        Some (np_mean (map (λ frame, pixel frame i j) (a3_data data))).
Proof.
  intros [Hlen Hframes] (Hsame & Hn & Hsize) Hpos.
  eexists (DataHandlerTifffile.getmean data), _.
  split; [done|].
  unfold DataHandlerPillow.getmean, seek.
  rewrite decide_True, bind_ret by lia. simpl im_n_frames. rewrite Hsize, Hn.
  simpl fst. simpl snd.
  destruct (for_each_range_inv
    (λ f (st : PIL_Image * ndarray R),
       st.1 = mk_PIL_Image (a3_x data, a3_y data) (a3_frames data)
                (im_frames image) (f - 1) ∧
       st.2 = mk_ndarray (a3_y data) (a3_x data)
                (sum_image (take f (a3_data data)) (a3_y data) (a3_x data)))
    (λ f '(data, avg),
       frame ← (if decide (f < im_n_frames data)%nat
                then Ok (mk_PIL_Image (im_size data) (im_n_frames data)
                           (im_frames data) f)
                else Raise EOFError);
       pixels ← asarray frame;
       avg ← nd_iadd avg pixels;
       Ok (frame, avg))
    (a3_frames data)
    (mk_PIL_Image (a3_x data, a3_y data) (a3_frames data) (im_frames image) 0,
     np_zeros (a3_y data, a3_x data)))
    as ([image' avg] & -> & Himage' & Havg).
  - simpl. split; [done|]. unfold np_zeros. simpl. by rewrite sum_image_nil.
  - intros f [img avg] Hf [Himg Havg]. simpl in Himg, Havg. subst img avg.
    simpl im_n_frames. rewrite decide_True, bind_ret by lia.
    destruct (lookup_lt_is_Some_2 (a3_data data) f) as [fr Hframe]; [lia|].
    unfold asarray. simpl. rewrite Hsame, Hframe, bind_ret.
    destruct (Forall_lookup_1 _ _ _ _ Hframes Hframe) as [Hwfr Hsfr].
    rewrite (nd_iadd_sum_image _ fr) by done. rewrite bind_ret.
    eexists. split; [done|]. simpl. split.
    + do 2 f_equal. lia.
    + by rewrite (take_S_r _ _ _ Hframe).
  - simpl in Himage', Havg. subst image' avg. rewrite bind_ret.
    rewrite take_ge by lia.
    unfold nd_idiv. simpl im_n_frames.
    rewrite decide_False by (apply not_0_INR; lia).
    rewrite bind_ret. simpl.
    assert (mk_ndarray (a3_y data) (a3_x data)
              (map (map (λ v, v / INR (a3_frames data)))
                 (sum_image (a3_data data) (a3_y data) (a3_x data))) =
            DataHandlerTifffile.getmean data) as ->.
    { unfold DataHandlerTifffile.getmean, sum_image. f_equal.
      rewrite map_map. apply map_ext. intros i. rewrite map_map.
      apply map_ext. intros j. unfold np_mean. by rewrite length_map, Hlen. }
    split; [done|]. split; [done|].
    unfold DataHandlerTifffile.getmean. split_and!.
    + split; simpl; [by rewrite length_map, length_seq|].
      apply Forall_map, Forall_forall. intros i _. simpl.
      by rewrite length_map, length_seq.
    + done.
    + intros i j Hi Hj. unfold entry. simpl.
      rewrite list_lookup_fmap, lookup_seq_lt by done. simpl.
      by rewrite list_lookup_fmap, lookup_seq_lt.
Qed.

End mean_image.

Section worked_examples_mean_image.
Import extraction.

(** A movie of two frames, 2 by 2 pixels, read through a handle left on
    frame 1. *)
Lemma getmean_agree_witness :
  let frame0 := mk_ndarray 2 2 [[10; 12]; [14; 16]] in
  let frame1 := mk_ndarray 2 2 [[20; 22]; [24; 26]] in
  let data := mk_array3 2 2 2 [frame0; frame1] in
  let image := mk_PIL_Image (2, 2)%nat 2 [frame0; frame1] 1 in
  array3_wf data ∧ same_movie data image ∧ (0 < a3_frames data)%nat ∧
  ∃ mean image',
    DataHandlerTifffile.getmean data = mean ∧
    DataHandlerPillow.getmean image = Ok (mean, image') ∧
    image' = mk_PIL_Image (im_size image) (im_n_frames image)
               (im_frames image) (im_n_frames image - 1) ∧
    nd_wf mean ∧ np_shape mean = (a3_y data, a3_x data) ∧
    ∀ i j, (i < a3_y data)%nat → (j < a3_x data)%nat →
      entry mean i j =
        Some (np_mean (map (λ frame, pixel frame i j) (a3_data data))).
Proof.
  intros frame0 frame1 data image.
  assert (array3_wf data) as Hwf.
  { split; [done|]. repeat constructor. }
  assert (same_movie data image) as Hsame by done.
  assert (0 < a3_frames data)%nat as Hpos by (simpl; lia).
  split; [exact Hwf|]. split; [exact Hsame|]. split; [exact Hpos|].
  apply (getmean_agree data image Hwf Hsame Hpos).
Defined.

End worked_examples_mean_image.

(** ** The mean of a matched trace *)



Section worked_examples_matched_mean.
Import example_libraries.


End worked_examples_matched_mean.

(** ** Traces and the mean image *)

Section trace_means.
Import extraction.

Lemma np_sum_compress_add (mr : list bool) (u v : list R) :
  length u = length v →
  np_sum (compress mr (zip_with Rplus u v)) =
  np_sum (compress mr u) + np_sum (compress mr v).
Proof.
  revert u v. induction mr as [|b mr IH]; intros [|a u] [|c v] Hl;
    simpl in *; try lia; try lra.
  destruct b; simpl; rewrite IH by lia; lra.
Qed.

Lemma length_compress_eq (mr : list bool) (u v : list R) :
  length u = length v → length (compress mr u) = length (compress mr v).
Proof.
  revert u v. induction mr as [|b mr IH]; intros [|a u] [|c v] Hl;
    simpl in *; try lia.
  destruct b; simpl; rewrite (IH u v) by lia; done.
Qed.

Lemma compress_map (f : R → R) (mr : list bool) (u : list R) :
  compress mr (map f u) = map f (compress mr u).
Proof.
  revert u. induction mr as [|b mr IH]; intros [|a u]; simpl; try done.
  destruct b; simpl; by rewrite IH.
Qed.

Lemma compress_zero (mr : list bool) (u : list R) :
  Forall (λ v, v = 0) u → np_sum (compress mr u) = 0.
Proof.
  intros Hu. revert mr. induction Hu as [|a u -> _ IH]; intros [|b mr];
    simpl; try done.
  destruct b; simpl; rewrite IH; lra.
Qed.

Lemma np_sum_picked_add (M : list (list bool)) (A B : list (list R)) :
  Forall2 (λ a b, length a = length b) A B →
  np_sum (concat (zip_with compress M (zip_with (zip_with Rplus) A B))) =
  np_sum (concat (zip_with compress M A)) +
  np_sum (concat (zip_with compress M B)).
Proof.
  intros HAB. revert M. induction HAB as [|a b A B Hab _ IH]; intros [|mr M];
    simpl; try lra.
  rewrite !np_sum_app, IH, np_sum_compress_add by done. lra.
Qed.

Lemma length_picked_eq (M : list (list bool)) (A B : list (list R)) :
  Forall2 (λ a b, length a = length b) A B →
  length (concat (zip_with compress M A)) =
  length (concat (zip_with compress M B)).
Proof.
  intros HAB. revert M. induction HAB as [|a b A B Hab _ IH]; intros [|mr M];
    simpl; try done.
  by rewrite !length_app, IH, (length_compress_eq mr a b).
Qed.

Lemma picked_map (f : R → R) (M : list (list bool)) (A : list (list R)) :
  concat (zip_with compress M (map (map f) A)) =
  map f (concat (zip_with compress M A)).
Proof.
  revert A. induction M as [|mr M IH]; intros [|a A]; simpl; try done.
  by rewrite map_app, IH, compress_map.
Qed.

Lemma np_sum_picked_zero (M : list (list bool)) (A : list (list R)) :
  Forall (Forall (λ v, v = 0)) A →
  np_sum (concat (zip_with compress M A)) = 0.
Proof.
  intros HA. revert M. induction HA as [|a A Ha _ IH]; intros [|mr M];
    simpl; try done.
  rewrite np_sum_app, IH, compress_zero by done. lra.
Qed.

Lemma same_shape_rows (A B : list (list R)) (y x : nat) :
  length A = y → Forall (λ r, length r = x) A →
  length B = y → Forall (λ r, length r = x) B →
  Forall2 (λ a b, length a = length b) A B.
Proof.
  intros HlA HA HlB HB. apply Forall2_same_length_lookup_2; [congruence|].
  intros i a b Ha Hb.
  pose proof (Forall_lookup_1 _ _ _ _ HA Ha) as Hla.
  pose proof (Forall_lookup_1 _ _ _ _ HB Hb) as Hlb.
  simpl in *. congruence.
Qed.

(** What a mask picks from the sum of the frames sums to what it picks
    from each of them. *)
Lemma np_sum_masked_sum_image (mask : ndarray bool)
    (frames : list (ndarray R)) (y x : nat) :
  Forall (λ fr, nd_wf fr ∧ np_shape fr = (y, x)) frames →
  np_sum (masked mask (mk_ndarray y x (sum_image frames y x))) =
  np_sum (map (λ fr, np_sum (masked mask fr)) frames).
Proof.
  induction frames as [|fr frames IH] using rev_ind; intros Hframes.
  - unfold masked. simpl. apply np_sum_picked_zero.
    unfold sum_image. apply Forall_map, Forall_forall. intros i _.
    apply Forall_map, Forall_forall. intros j _. done.
  - apply Forall_app in Hframes as [Hframes Hfr].
    apply Forall_singleton in Hfr as [Hwf Hshape].
    rewrite <- (sum_image_snoc frames fr y x Hwf Hshape).
    specialize (IH Hframes).
    destruct (length_sum_image frames y x) as [Hl Hr].
    destruct Hwf as [Hlf Hrf]. injection Hshape as Hrows Hcols.
    assert (Forall2 (λ a b, length a = length b) (sum_image frames y x)
              (nd_data fr)) as Hrows2.
    { apply (same_shape_rows _ _ y x); [done | done | congruence |].
      by rewrite <- Hcols. }
    unfold masked in *. simpl in *.
    rewrite np_sum_picked_add, IH by done.
    rewrite map_app, np_sum_app. simpl. lra.
Qed.

(** The whole-movie mean image is the sum image divided by the number of
    frames. *)
Lemma getmean_sum_image (data : array3) :
  length (a3_data data) = a3_frames data →
  DataHandlerTifffile.getmean data =
    mk_ndarray (a3_y data) (a3_x data)
      (map (map (λ v, v / INR (a3_frames data)))
         (sum_image (a3_data data) (a3_y data) (a3_x data))).
Proof.
  intros Hlen. unfold DataHandlerTifffile.getmean, sum_image. f_equal.
  rewrite map_map. apply map_ext. intros i. rewrite map_map.
  apply map_ext. intros j. unfold np_mean. by rewrite length_map, Hlen.
Qed.

(** X17. Averaging a trace over time gives what the mask picks on average
    from the mean image: for a mask of the frame shape that picks at least
    one pixel, the mean of row [i] of [extracttraces] is the mean of the
    pixels of [getmean] under mask [i]. *)
Theorem trace_mean_from_mean_image (data : array3)
    (masks : list (ndarray bool)) (i : nat) (mask : ndarray bool) :
  array3_wf data → (0 < a3_frames data)%nat →
  Forall (λ m, np_shape m = (a3_y data, a3_x data)) masks →
  masks !! i = Some mask →
  masked mask (DataHandlerTifffile.getmean data) ≠ [] →
  ∃ traces row,
    DataHandlerTifffile.extracttraces data masks = Ok traces ∧
    getrow traces i = Ok row ∧
    np_mean row =
      np_mean (masked mask (DataHandlerTifffile.getmean data)).
Proof.
  intros Hwf Hpos Hmasks Hm _. pose proof Hwf as [Hlen Hframes].
  exists (traces_of data masks), (mask_trace (a3_data data) mask).
  split; [by apply tifffile_extracttraces_spec|].
  split; [unfold getrow, traces_of; simpl; by rewrite list_lookup_fmap, Hm|].
  set (G := DataHandlerTifffile.getmean data).
  set (c := INR (length (masked mask G))).
  assert (mask_trace (a3_data data) mask =
          map (λ v, v / c) (map (λ fr, np_sum (masked mask fr)) (a3_data data)))
    as ->.
  { unfold mask_trace. rewrite map_map. apply map_ext_in. intros fr Hin.
    unfold np_mean, c. do 2 f_equal.
    apply list_elem_of_In in Hin.
    rewrite Forall_forall in Hframes.
    destruct (Hframes fr Hin) as [[Hlf Hrf] [= Hrows Hcols]].
    unfold masked. apply length_picked_eq.
    unfold G. rewrite (getmean_sum_image data Hlen). simpl.
    destruct (length_sum_image (a3_data data) (a3_y data) (a3_x data))
      as [Hl Hr].
    apply (same_shape_rows _ _ (a3_y data) (a3_x data)).
    - congruence.
    - by rewrite <- Hcols.
    - by rewrite length_map.
    - apply Forall_map. eapply Forall_impl; [exact Hr|].
      intros r Hlr. simpl. by rewrite length_map. }
  unfold np_mean at 1. rewrite np_sum_div, !length_map, Hlen.
  unfold np_mean. fold c.
  assert (np_sum (masked mask G) =
          np_sum (map (λ fr, np_sum (masked mask fr)) (a3_data data)) /
          INR (a3_frames data)) as ->.
  { unfold G. rewrite (getmean_sum_image data Hlen).
    unfold masked at 1. simpl. rewrite picked_map, np_sum_div. f_equal.
    by rewrite <- (np_sum_masked_sum_image mask _ _ _ Hframes). }
  unfold Rdiv. ring.
Qed.

End trace_means.

Section worked_examples_trace_means.
Import extraction.

(** A movie of two frames, 2 by 2 pixels, and the second of two masks. *)
Lemma trace_mean_from_mean_image_witness :
  let frame0 := mk_ndarray 2 2 [[10; 12]; [14; 16]] in
  let frame1 := mk_ndarray 2 2 [[20; 22]; [24; 26]] in
  let data := mk_array3 2 2 2 [frame0; frame1] in
  let mask := mk_ndarray 2 2 [[false; true]; [true; true]] in
  let masks := [mk_ndarray 2 2 [[true; false]; [false; true]]; mask] in
  array3_wf data ∧ (0 < a3_frames data)%nat ∧
  Forall (λ m, np_shape m = (a3_y data, a3_x data)) masks ∧
  masks !! 1%nat = Some mask ∧
  masked mask (DataHandlerTifffile.getmean data) ≠ [] ∧
  ∃ traces row,
    DataHandlerTifffile.extracttraces data masks = Ok traces ∧
    getrow traces 1 = Ok row ∧
    np_mean row =
      np_mean (masked mask (DataHandlerTifffile.getmean data)).
Proof.
  intros frame0 frame1 data mask masks.
  assert (array3_wf data) as Hwf.
  { split; [done|]. repeat constructor. }
  assert (0 < a3_frames data)%nat as Hpos by (simpl; lia).
  assert (Forall (λ m, np_shape m = (a3_y data, a3_x data)) masks)
    as Hmasks by (by repeat constructor).
  assert (masks !! 1%nat = Some mask) as Hm by done.
  assert (masked mask (DataHandlerTifffile.getmean data) ≠ []) as Hpicks
    by done.
  split; [exact Hwf|]. split; [exact Hpos|]. split; [exact Hmasks|].
  split; [exact Hm|]. split; [exact Hpicks|].
  apply (trace_mean_from_mean_image data masks 1 mask Hwf Hpos Hmasks Hm
           Hpicks).
Defined.

End worked_examples_trace_means.
